(** * Rate-limiting middleware (src/middleware.ts): shallow embedding

    The module keeps one process-wide [Map] from client keys to window
    records, reads the clock with [Date.now()], and shapes a response for
    every request.  The embedding threads the map explicitly (state
    passing) and takes each clock reading as an argument.

    Numbers.  The counters and time values of the source are JavaScript
    numbers holding integers (counts, millisecond time stamps); they are
    integers of [Z] here, which is exact below 2^53.  The built-ins
    [Number.prototype.toString], [Math.ceil], [String.prototype.split],
    [String.prototype.startsWith] and [Date.prototype.toISOString] are
    modelled on that integer domain ([toISOString] for time values inside
    the range of valid dates, where it does not raise). *)

From Stdlib Require Import ZArith List Ascii String Lia.
From stdpp Require Import gmap strings pretty.

Local Open Scope Z_scope.

(** ** JavaScript built-ins used by the middleware *)

Module Js.

(** [n.toString()] for an integral number: its decimal numeral. *)
Definition Number_toString (n : Z) : string := pretty n.

(** [Math.ceil(a / b)] for integers [a] and [b > 0]. *)
Definition Math_ceil_div (a b : Z) : Z := - ((- a) / b).

(** [s.split(sep)] for a one-character separator: the pieces between the
    occurrences of [sep]; the result is never empty (the empty string gives one empty piece). *)
Fixpoint split (sep : ascii) (s : string) : list string :=
  match s with
  | EmptyString => [EmptyString]
  | String c rest =>
      if Ascii.eqb c sep then EmptyString :: split sep rest
      else match split sep rest with
           | piece :: pieces => String c piece :: pieces
           | [] => [String c EmptyString]
           end
  end.

(** [s.startsWith(p)]. *)
Definition startsWith (s p : string) : bool := String.prefix p s.

(** [v || d] on an optional string: [v] unless it is [undefined] or the
    empty string, which count as false. *)
Definition or_else (v : option string) (d : string) : string :=
  match v with
  | Some s => if String.eqb s EmptyString then d else s
  | None => d
  end.

(** Decimal numeral of [n >= 0] padded with zeros to [width] digits. *)
Fixpoint pad_digits (width : nat) (n : Z) : string :=
  match width with
  | O => EmptyString
  | S w => pad_digits w (n / 10) +:+ String (pretty_N_char (Z.to_N (n mod 10))) EmptyString
  end.

(** Year, month and day of the Gregorian calendar for a day number counted
    from 1970-01-01. *)
Definition civil_from_days (days : Z) : Z * Z * Z :=
  let z := days + 719468 in
  let era := z / 146097 in
  let doe := z - era * 146097 in
  let yoe := (doe - doe / 1460 + doe / 36524 - doe / 146096) / 365 in
  let doy := doe - (365 * yoe + yoe / 4 - yoe / 100) in
  let mp := (5 * doy + 2) / 153 in
  let d := doy - (153 * mp + 2) / 5 + 1 in
  let m := if mp <? 10 then mp + 3 else mp - 9 in
  let y := yoe + era * 400 + (if m <=? 2 then 1 else 0) in
  (y, m, d).

(** [new Date(t).toISOString()] for a time value [t] in milliseconds since
    the epoch: [YYYY-MM-DDTHH:mm:ss.sssZ], with a signed six-digit year
    outside 0..9999. *)
Definition Date_toISOString (t : Z) : string :=
  let days := t / 86400000 in
  let ms := t mod 86400000 in
  let '(y, m, d) := civil_from_days days in
  let year :=
    if (0 <=? y) && (y <=? 9999) then pad_digits 4 y
    else (if y <? 0 then "-" else "+") +:+ pad_digits 6 (Z.abs y) in
  year +:+ "-" +:+ pad_digits 2 m +:+ "-" +:+ pad_digits 2 d +:+ "T"
    +:+ pad_digits 2 (ms / 3600000) +:+ ":"
    +:+ pad_digits 2 (ms / 60000 mod 60) +:+ ":"
    +:+ pad_digits 2 (ms / 1000 mod 60) +:+ "."
    +:+ pad_digits 3 (ms mod 1000) +:+ "Z".

End Js.

(** ** Data model *)

(** The value type of [rateLimitStore]: [{ count: number; resetTime: number }]. *)
Record WindowRecord : Type := mkRecord {
  count : Z;
  resetTime : Z;
}.

Global Instance WindowRecord_eq_dec : EqDecision WindowRecord.
Proof. solve_decision. Defined.

(** [rateLimitStore]: a [Map] keyed by the client key. *)
Abbreviation Store := (gmap string WindowRecord).

(** The fields of [RATE_LIMIT] that the code reads. *)
Record Config : Type := mkConfig {
  windowMs : Z;
  maxRequests : Z;
}.

(** [RATE_LIMIT] as the source sets it: one minute, 100 requests. *)
Definition RATE_LIMIT : Config :=
  {| windowMs := 60 * 1000; maxRequests := 100 |}.

(** What the middleware reads of a [NextRequest]: the value of
    [headers.get("x-forwarded-for")] ([None] for [null]), [request.ip]
    ([None] for [undefined]) and [nextUrl.pathname]. *)
Record NextRequest : Type := mkRequest {
  x_forwarded_for : option string;
  ip : option string;
  pathname : string;
}.

(** JSON values of the rejection body. *)
Inductive JsonValue : Type :=
  | JString (s : string)
  | JNumber (n : Z).

(** A [NextResponse]: its status, its JSON body if it has one, and the
    headers the middleware puts on it, in the order they are set. *)
Record NextResponse : Type := mkResponse {
  status : Z;
  body : option (list (string * JsonValue));
  headers : list (string * string);
}.

(** [NextResponse.next()]: the request goes on to the route handler. *)
Definition NextResponse_next : NextResponse :=
  {| status := 200; body := None; headers := [] |}.

(** [NextResponse.json(body, { status, headers })]. *)
Definition NextResponse_json (b : list (string * JsonValue)) (st : Z)
    (hs : list (string * string)) : NextResponse :=
  {| status := st; body := Some b; headers := hs |}.

(** [headers.set(name, value)]: replaces the value of a header that is
    there, appends the header otherwise. *)
Fixpoint headers_set (name value : string) (hs : list (string * string))
    : list (string * string) :=
  match hs with
  | [] => [(name, value)]
  | (n, v) :: rest =>
      if String.eqb n name then (n, value) :: rest
      else (n, v) :: headers_set name value rest
  end.

(** [headers.get(name)]. *)
Fixpoint headers_get (name : string) (hs : list (string * string))
    : option string :=
  match hs with
  | [] => None
  | (n, v) :: rest => if String.eqb n name then Some v else headers_get name rest
  end.

Definition set_header (name value : string) (r : NextResponse) : NextResponse :=
  {| status := status r; body := body r;
     headers := headers_set name value (headers r) |}.

(** ** The middleware *)

(** [getRateLimitKey].  The conditional tests [forwarded] as a boolean: a
    header that is [null] or the empty string sends the code to
    [request.ip || "unknown"]; otherwise the first piece of the split is
    taken as it stands. *)
Definition getRateLimitKey (request : NextRequest) : string :=
  let forwarded := x_forwarded_for request in
  let ip :=
    match forwarded with
    | Some f =>
        if String.eqb f EmptyString then Js.or_else (ip request) "unknown"
        else match Js.split "," f with
             | first :: _ => first
             | [] => "undefined"
             end
    | None => Js.or_else (ip request) "unknown"
    end in
  "rate_limit:" +:+ ip.

Section Limiter.

Variable cfg : Config.

(** [isRateLimited key], with [now] the value of [Date.now()] read at its
    start.  Returns the boolean and the store after the call; [record.count++]
    updates the record held by the map. *)
Definition isRateLimited (now : Z) (key : string) (rateLimitStore : Store)
    : bool * Store :=
  match rateLimitStore !! key with
  | Some record =>
      if now >? resetTime record then
        (false, <[key := {| count := 1; resetTime := now + windowMs cfg |}]> rateLimitStore)
      else if count record >=? maxRequests cfg then
        (true, rateLimitStore)
      else
        (false, <[key := {| count := count record + 1; resetTime := resetTime record |}]> rateLimitStore)
  | None =>
      (false, <[key := {| count := 1; resetTime := now + windowMs cfg |}]> rateLimitStore)
  end.

(** The tail of [middleware]: security headers on every response that gets
    there, CORS headers on API routes. *)
Definition secured (request : NextRequest) : NextResponse :=
  let response := NextResponse_next in
  let response := set_header "X-Content-Type-Options" "nosniff" response in
  let response := set_header "X-Frame-Options" "DENY" response in
  let response := set_header "X-XSS-Protection" "1; mode=block" response in
  let response := set_header "Referrer-Policy" "strict-origin-when-cross-origin" response in
  if Js.startsWith (pathname request) "/api/" then
    let response := set_header "Access-Control-Allow-Origin" "*" response in
    let response := set_header "Access-Control-Allow-Methods" "GET, POST, PUT, DELETE, OPTIONS" response in
    set_header "Access-Control-Allow-Headers" "Content-Type, Authorization" response
  else response.

(** The 429 response of a rejected request; [now'] is the value of the
    [Date.now()] read while the headers are built. *)
Definition tooManyRequests (now' : Z) : NextResponse :=
  NextResponse_json
    [ ("error", JString "Too many requests");
      ("message", JString ("Rate limit exceeded. Maximum "
                            +:+ Js.Number_toString (maxRequests cfg)
                            +:+ " requests per minute."));
      ("retryAfter", JNumber (Js.Math_ceil_div (windowMs cfg) 1000)) ]
    429
    [ ("Retry-After", Js.Number_toString (Js.Math_ceil_div (windowMs cfg) 1000));
      ("X-RateLimit-Limit", Js.Number_toString (maxRequests cfg));
      ("X-RateLimit-Remaining", "0");
      ("X-RateLimit-Reset", Js.Date_toISOString (now' + windowMs cfg)) ].

(** The response of an admitted API request, from the record found in the
    store after [isRateLimited]. *)
Definition withRateLimitHeaders (record : WindowRecord) : NextResponse :=
  let response := NextResponse_next in
  let response := set_header "X-RateLimit-Limit" (Js.Number_toString (maxRequests cfg)) response in
  let response := set_header "X-RateLimit-Remaining"
                    (Js.Number_toString (maxRequests cfg - count record)) response in
  set_header "X-RateLimit-Reset" (Js.Date_toISOString (resetTime record)) response.

(** [middleware request].  [now] is the clock reading inside
    [isRateLimited], [now'] the later reading of the rejection branch. *)
Definition middleware (request : NextRequest) (now now' : Z)
    (rateLimitStore : Store) : NextResponse * Store :=
  if Js.startsWith (pathname request) "/api/" then
    let rateLimitKey := getRateLimitKey request in
    let '(limited, rateLimitStore) := isRateLimited now rateLimitKey rateLimitStore in
    if limited then (tooManyRequests now', rateLimitStore)
    else
      match rateLimitStore !! rateLimitKey with
      | Some record => (withRateLimitHeaders record, rateLimitStore)
      | None => (secured request, rateLimitStore)
      end
  else (secured request, rateLimitStore).

End Limiter.

(** ** Serving a sequence of requests

    The store is module state: consecutive invocations see what the
    earlier ones left.  An event is one invocation of [middleware] with its
    clock readings. *)

Record Event : Type := mkEvent {
  ev_request : NextRequest;
  ev_now : Z;
  ev_now' : Z;
}.

Section Driver.

Variable cfg : Config.

(** Consecutive calls of [isRateLimited] for one key at the given times. *)
Fixpoint evaluate_all (key : string) (nows : list Z) (store : Store)
    : list bool * Store :=
  match nows with
  | [] => ([], store)
  | now :: rest =>
      let '(b, store) := isRateLimited cfg now key store in
      let '(bs, store) := evaluate_all key rest store in
      (b :: bs, store)
  end.

(** Consecutive invocations of [middleware]. *)
Fixpoint serve (evs : list Event) (store : Store)
    : list NextResponse * Store :=
  match evs with
  | [] => ([], store)
  | e :: rest =>
      let '(r, store) := middleware cfg (ev_request e) (ev_now e) (ev_now' e) store in
      let '(rs, store) := serve rest store in
      (r :: rs, store)
  end.

End Driver.

(** ** What a response reports *)

Definition reported_limit (r : NextResponse) : option string :=
  headers_get "X-RateLimit-Limit" (headers r).
Definition reported_remaining (r : NextResponse) : option string :=
  headers_get "X-RateLimit-Remaining" (headers r).
Definition reported_reset (r : NextResponse) : option string :=
  headers_get "X-RateLimit-Reset" (headers r).

(** An API request with client key [k]. *)
Definition limited_request (k : string) (request : NextRequest) : Prop :=
  Js.startsWith (pathname request) "/api/" = true ∧ getRateLimitKey request = k.

(** The store invariant: every record has a count between 1 and the limit. *)
Definition store_ok (cfg : Config) (store : Store) : Prop :=
  map_Forall (λ _ r, 1 <= count r <= maxRequests cfg) store.

(** A record is live at [now] when the test [now > record.resetTime] fails. *)
Definition live (now : Z) (r : WindowRecord) : Prop := now <= resetTime r.

(** The record a new window starts with. *)
Definition fresh_record (cfg : Config) (now : Z) : WindowRecord :=
  {| count := 1; resetTime := now + windowMs cfg |}.

(** ** Reading a forwarded-address list *)

(** The first comma-separated entry of a list: what stands before its
    first comma, or all of it when it has none. *)
Fixpoint first_entry (s : string) : string :=
  match s with
  | EmptyString => EmptyString
  | String c rest => if Ascii.eqb c "," then EmptyString else String c (first_entry rest)
  end.

Fixpoint has_comma (s : string) : bool :=
  match s with
  | EmptyString => false
  | String c rest => Ascii.eqb c "," || has_comma rest
  end.

(** ** Sample traffic *)

(** An API request whose forwarded-address header is [forwarded]. *)
Definition api_request (forwarded : string) : NextRequest :=
  {| x_forwarded_for := Some forwarded; ip := None; pathname := "/api/jobs" |}.

(** One request at [now], with both clock readings equal. *)
Definition at_time (request : NextRequest) (now : Z) : Event :=
  {| ev_request := request; ev_now := now; ev_now' := now |}.

(** A request that opens a window at time 0, followed by [n] more at 500 ms. *)
Definition burst (forwarded : string) (n : nat) : list Event :=
  at_time (api_request forwarded) 0
    :: replicate n (at_time (api_request forwarded) 500).

(** ** Traces of mixed traffic *)

(** The test [request.nextUrl.pathname.startsWith("/api/")] on an event. *)
Definition is_api (e : Event) : bool :=
  Js.startsWith (pathname (ev_request e)) "/api/".

(** The key [middleware] computes for an event. *)
Definition event_key (e : Event) : string := getRateLimitKey (ev_request e).

(** An API event of client key [k]. *)
Definition is_limited (k : string) (e : Event) : bool :=
  is_api e && String.eqb (event_key e) k.

(** The keys the API events of a trace present to the limiter. *)
Definition api_keys (evs : list Event) : gset string :=
  list_to_set (event_key <$> List.filter is_api evs).

(** The responses given to the API events of a trace. *)
Fixpoint api_responses (evs : list Event) (resps : list NextResponse)
    : list NextResponse :=
  match evs, resps with
  | e :: evs, r :: resps =>
      if is_api e then r :: api_responses evs resps else api_responses evs resps
  | _, _ => []
  end.

(** How many API events of key [k] were let through (status 200). *)
Fixpoint admitted_for (k : string) (evs : list Event) (resps : list NextResponse)
    : Z :=
  match evs, resps with
  | e :: evs, r :: resps =>
      (if is_limited k e && (status r =? 200) then 1 else 0)
      + admitted_for k evs resps
  | _, _ => 0
  end.

(** A clock that does not run backwards: every reading is at least the one
    before it, from [t] on. *)
Fixpoint clock_ordered (t : Z) (evs : list Event) : Prop :=
  match evs with
  | [] => True
  | e :: rest =>
      t <= ev_now e ∧ ev_now e <= ev_now' e ∧ clock_ordered (ev_now' e) rest
  end.

(** No record ends its window later than [windowMs] after [t]. *)
Definition ends_by (cfg : Config) (t : Z) (store : Store) : Prop :=
  map_Forall (λ _ r, resetTime r <= t + windowMs cfg) store.

(** Traffic of one client around the end of its first window: a request at
    time 0, [maxRequests - 1] requests at [windowMs], [maxRequests] requests
    one millisecond later. *)
Definition boundary_burst (cfg : Config) (forwarded : string) : list Event :=
  at_time (api_request forwarded) 0
    :: replicate (Z.to_nat (maxRequests cfg - 1))
         (at_time (api_request forwarded) (windowMs cfg))
    ++ replicate (Z.to_nat (maxRequests cfg))
         (at_time (api_request forwarded) (windowMs cfg + 1)).

(** ** Basic facts about [isRateLimited] *)

Section LimiterFacts.

Variable cfg : Config.
Local Abbreviation W := (windowMs cfg).
Local Abbreviation M := (maxRequests cfg).

Lemma isRateLimited_absent now k (store : Store) :
  store !! k = None →
  isRateLimited cfg now k store = (false, <[k := fresh_record cfg now]> store).
Proof. intros H. unfold isRateLimited. rewrite H. reflexivity. Qed.

Lemma isRateLimited_expired now k r (store : Store) :
  store !! k = Some r → resetTime r < now →
  isRateLimited cfg now k store = (false, <[k := fresh_record cfg now]> store).
Proof.
  intros H Hlt. unfold isRateLimited. rewrite H.
  destruct (Z.gtb_spec now (resetTime r)); [reflexivity | lia].
Qed.

Lemma isRateLimited_exhausted now k r (store : Store) :
  store !! k = Some r → live now r → M <= count r →
  isRateLimited cfg now k store = (true, store).
Proof.
  unfold live. intros H Hlive Hc. unfold isRateLimited. rewrite H.
  destruct (Z.gtb_spec now (resetTime r)); [lia |].
  destruct (Z.geb_spec (count r) M); [reflexivity | lia].
Qed.

Lemma isRateLimited_counted now k r (store : Store) :
  store !! k = Some r → live now r → count r < M →
  isRateLimited cfg now k store
  = (false, <[k := {| count := count r + 1; resetTime := resetTime r |}]> store).
Proof.
  unfold live. intros H Hlive Hc. unfold isRateLimited. rewrite H.
  destruct (Z.gtb_spec now (resetTime r)); [lia |].
  destruct (Z.geb_spec (count r) M); [lia | reflexivity].
Qed.

(** The four ways a call can go. *)
Lemma isRateLimited_cases now k (store : Store) :
  (store !! k = None ∧
   isRateLimited cfg now k store = (false, <[k := fresh_record cfg now]> store))
  ∨ (∃ r, store !! k = Some r ∧ resetTime r < now ∧
     isRateLimited cfg now k store = (false, <[k := fresh_record cfg now]> store))
  ∨ (∃ r, store !! k = Some r ∧ live now r ∧ M <= count r ∧
     isRateLimited cfg now k store = (true, store))
  ∨ (∃ r, store !! k = Some r ∧ live now r ∧ count r < M ∧
     isRateLimited cfg now k store
     = (false, <[k := {| count := count r + 1; resetTime := resetTime r |}]> store)).
Proof.
  destruct (store !! k) as [r|] eqn:Hk.
  - destruct (Z.lt_ge_cases (resetTime r) now) as [Hexp|Hlive].
    + right; left. exists r. eauto using isRateLimited_expired.
    + destruct (Z.le_gt_cases M (count r)) as [Hfull|Hroom].
      * right; right; left. exists r. eauto using isRateLimited_exhausted.
      * right; right; right. exists r. eauto using isRateLimited_counted.
  - left. eauto using isRateLimited_absent.
Qed.

End LimiterFacts.

(** ** Basic facts about [middleware] *)

Section MiddlewareFacts.

Variable cfg : Config.
Local Abbreviation W := (windowMs cfg).
Local Abbreviation M := (maxRequests cfg).

Lemma admitted_status r : status (withRateLimitHeaders cfg r) = 200.
Proof. reflexivity. Qed.

Lemma admitted_limit r :
  reported_limit (withRateLimitHeaders cfg r) = Some (Js.Number_toString M).
Proof. reflexivity. Qed.

Lemma admitted_remaining r :
  reported_remaining (withRateLimitHeaders cfg r)
  = Some (Js.Number_toString (M - count r)).
Proof. reflexivity. Qed.

Lemma admitted_reset r :
  reported_reset (withRateLimitHeaders cfg r)
  = Some (Js.Date_toISOString (resetTime r)).
Proof. reflexivity. Qed.

Lemma rejected_status now' : status (tooManyRequests cfg now') = 429.
Proof. reflexivity. Qed.

Lemma rejected_remaining now' :
  reported_remaining (tooManyRequests cfg now') = Some "0".
Proof. reflexivity. Qed.

Lemma rejected_reset now' :
  reported_reset (tooManyRequests cfg now')
  = Some (Js.Date_toISOString (now' + W)).
Proof. reflexivity. Qed.

(** On an API route the response is decided by [isRateLimited] and the
    record it leaves under the key. *)
Lemma middleware_limited k request now now' (store : Store) :
  limited_request k request →
  middleware cfg request now now' store
  = (if (isRateLimited cfg now k store).1 then tooManyRequests cfg now'
     else match (isRateLimited cfg now k store).2 !! k with
          | Some record => withRateLimitHeaders cfg record
          | None => secured request
          end,
     (isRateLimited cfg now k store).2).
Proof.
  intros [Hapi Hkey]. unfold middleware. rewrite Hapi, Hkey.
  destruct (isRateLimited cfg now k store) as [[] store']; simpl; [done|].
  by destruct (store' !! k).
Qed.

Lemma middleware_fresh k request now now' (store : Store) :
  limited_request k request →
  match store !! k with Some r => resetTime r < now | None => True end →
  middleware cfg request now now' store
  = (withRateLimitHeaders cfg (fresh_record cfg now),
     <[k := fresh_record cfg now]> store).
Proof.
  intros Hreq Hfresh. rewrite (middleware_limited k) by done.
  destruct (store !! k) as [r|] eqn:Hk.
  - rewrite (isRateLimited_expired cfg now k r) by done. simpl.
    by rewrite lookup_insert_eq.
  - rewrite isRateLimited_absent by done. simpl.
    by rewrite lookup_insert_eq.
Qed.

Lemma middleware_exhausted k request now now' r (store : Store) :
  limited_request k request →
  store !! k = Some r → live now r → M <= count r →
  middleware cfg request now now' store = (tooManyRequests cfg now', store).
Proof.
  intros Hreq Hk Hlive Hfull. rewrite (middleware_limited k) by done.
  by rewrite (isRateLimited_exhausted cfg now k r).
Qed.

Lemma middleware_counted k request now now' r (store : Store) :
  limited_request k request →
  store !! k = Some r → live now r → count r < M →
  middleware cfg request now now' store
  = (withRateLimitHeaders cfg {| count := count r + 1; resetTime := resetTime r |},
     <[k := {| count := count r + 1; resetTime := resetTime r |}]> store).
Proof.
  intros Hreq Hk Hlive Hroom. rewrite (middleware_limited k) by done.
  rewrite (isRateLimited_counted cfg now k r) by done. simpl.
  by rewrite lookup_insert_eq.
Qed.

(** Requests of one key inside a live window: the [i]-th of them is counted
    while the count stays below the limit and rejected from then on. *)
Lemma serve_live k c R (evs : list Event) : ∀ (store : Store),
  store !! k = Some {| count := c; resetTime := R |} →
  Forall (λ e, limited_request k (ev_request e) ∧ ev_now e <= R) evs →
  ∀ i e, evs !! i = Some e →
    (serve cfg evs store).1 !! i
    = Some (if c + Z.of_nat i <? M
            then withRateLimitHeaders cfg {| count := c + Z.of_nat i + 1; resetTime := R |}
            else tooManyRequests cfg (ev_now' e)).
Proof.
  revert c. induction evs as [|e0 rest IH]; intros c store Hk Hall i e Hi.
  { by rewrite lookup_nil in Hi. }
  apply Forall_cons in Hall as [[Hreq Hnow] Hall]. simpl.
  destruct (Z.le_gt_cases M c) as [Hfull|Hroom].
  - rewrite (middleware_exhausted k _ _ _ _ store Hreq Hk) by (unfold live; simpl; lia).
    destruct (serve cfg rest store) as [rs store'] eqn:Hrest.
    destruct i as [|j]; simpl in *.
    + injection Hi as ->. rewrite Z.add_0_r.
      destruct (Z.ltb_spec c M); [lia | done].
    + specialize (IH c store Hk Hall j e Hi). rewrite Hrest in IH. simpl in IH.
      rewrite IH.
      destruct (Z.ltb_spec (c + Z.of_nat j) M), (Z.ltb_spec (c + Z.of_nat (S j)) M);
        try lia; done.
  - rewrite (middleware_counted k _ _ _ _ store Hreq Hk) by (unfold live; simpl; lia).
    simpl count; simpl resetTime.
    destruct (serve cfg rest _) as [rs store'] eqn:Hrest.
    destruct i as [|j]; simpl in *.
    + injection Hi as ->. rewrite Z.add_0_r.
      destruct (Z.ltb_spec c M); [done | lia].
    + assert (Hk' : (<[k := {| count := c + 1; resetTime := R |}]> store) !! k
                    = Some {| count := c + 1; resetTime := R |})
        by apply lookup_insert_eq.
      specialize (IH (c + 1) _ Hk' Hall j e Hi). rewrite Hrest in IH. simpl in IH.
      rewrite IH.
      by replace (c + 1 + Z.of_nat j) with (c + Z.of_nat (S j)) by lia.
Qed.

End MiddlewareFacts.

(** ** The claims *)

(** C1.  For a fixed key, the first [maxRequests] requests of a window
    (the one that opens it at [t0] and those that follow inside
    [[t0, t0 + windowMs)]) are admitted, and the [i]-th of them (counting
    from 0) reports the remaining quota [maxRequests - 1 - i]: the values
    [M-1, M-2, ..., 0] in that order.  The next request of the window, the
    [(M+1)]-th, and any later one are rejected with status 429 and a
    remaining quota of 0. *)
Theorem C1_quota_within_window cfg k t0 (store : Store) e0 rest :
  1 <= maxRequests cfg →
  match store !! k with Some r => resetTime r < t0 | None => True end →
  ev_now e0 = t0 →
  Forall (λ e, limited_request k (ev_request e)
               ∧ t0 <= ev_now e < t0 + windowMs cfg) (e0 :: rest) →
  ∀ i e, (e0 :: rest) !! i = Some e →
    ∃ r, (serve cfg (e0 :: rest) store).1 !! i = Some r ∧
      if Z.of_nat i <? maxRequests cfg
      then status r = 200
           ∧ reported_remaining r
             = Some (Js.Number_toString (maxRequests cfg - 1 - Z.of_nat i))
      else status r = 429 ∧ reported_remaining r = Some "0".
Proof.
  intros HM Hfresh Ht0 Hall i e Hi.
  apply Forall_cons in Hall as [[Hreq0 Hnow0] Hall]. simpl.
  rewrite (middleware_fresh cfg k) by (rewrite ?Ht0; done).
  destruct (serve cfg rest _) as [rs store'] eqn:Hrest.
  destruct i as [|j]; simpl in *.
  - eexists; split; [reflexivity|]. change (Z.of_nat 0) with 0.
    destruct (Z.ltb_spec 0 (maxRequests cfg)); [|lia].
    split; [done|]. rewrite admitted_remaining. simpl. do 2 f_equal. lia.
  - pose proof (serve_live cfg k 1 (ev_now e0 + windowMs cfg) rest
                  (<[k := fresh_record cfg (ev_now e0)]> store)) as Hlive.
    rewrite Hrest in Hlive. simpl in Hlive.
    rewrite (Hlive (lookup_insert_eq _ _ _)) with (e := e); [|clear Hlive|done].
    + eexists; split; [reflexivity|].
      replace (1 + Z.of_nat j) with (Z.of_nat (S j)) by lia.
      destruct (Z.ltb_spec (Z.of_nat (S j)) (maxRequests cfg)).
      * split; [done|]. rewrite admitted_remaining. simpl count.
        do 2 f_equal. lia.
      * done.
    + eapply Forall_impl; [exact Hall|]. simpl. intros ? [? ?]. split; [done|lia].
Qed.

(** A window of the source's configuration: 100 requests admitted, the
    101st rejected. *)
Lemma C1_quota_within_window_witness :
  ∃ r, (serve RATE_LIMIT (burst "1.2.3.4" 100) ∅).1 !! 100%nat = Some r
       ∧ status r = 429 ∧ reported_remaining r = Some "0".
Proof.
  refine (C1_quota_within_window RATE_LIMIT "rate_limit:1.2.3.4" 0 ∅
            (at_time (api_request "1.2.3.4") 0)
            (replicate 100 (at_time (api_request "1.2.3.4") 500))
            _ _ _ _ 100%nat (at_time (api_request "1.2.3.4") 500) _).
  - simpl. lia.
  - exact I.
  - reflexivity.
  - apply Forall_cons. split.
    + split; [split; reflexivity | simpl; lia].
    + apply Forall_replicate. split; [split; reflexivity | simpl; lia].
  - reflexivity.
Defined.

(** C2.  Rejection leaves the store as it is.  When the record of a key
    has reached the limit, every evaluation while the record is live
    ([now <= resetTime]) returns [true] and the store after it is the store
    before it; so any number of such evaluations are all rejected, the
    requests they belong to all get the 429 response, and the store still
    is the one they started from. *)
Theorem C2_rejection_idempotent cfg k r (store : Store) :
  store !! k = Some r → maxRequests cfg <= count r →
  (∀ now, live now r → isRateLimited cfg now k store = (true, store))
  ∧ (∀ nows, Forall (λ now, live now r) nows →
       evaluate_all cfg k nows store = (replicate (length nows) true, store))
  ∧ (∀ evs, Forall (λ e, limited_request k (ev_request e)
                         ∧ live (ev_now e) r) evs →
       serve cfg evs store
       = (map (λ e, tooManyRequests cfg (ev_now' e)) evs, store)).
Proof.
  intros Hk Hfull. split; [|split].
  - intros now Hlive. by apply isRateLimited_exhausted with r.
  - induction nows as [|now nows IH]; intros Hall; [done|].
    apply Forall_cons in Hall as [Hlive Hall]. simpl.
    rewrite (isRateLimited_exhausted cfg now k r) by done.
    by rewrite IH.
  - induction evs as [|e evs IH]; intros Hall; [done|].
    apply Forall_cons in Hall as [[Hreq Hlive] Hall]. simpl.
    rewrite (middleware_exhausted cfg k _ _ _ r) by done.
    by rewrite IH.
Qed.

Lemma C2_rejection_idempotent_witness :
  evaluate_all RATE_LIMIT "k" [500; 501; 60000]
    {[ "k" := {| count := 100; resetTime := 60000 |} ]}
  = ([true; true; true], {[ "k" := {| count := 100; resetTime := 60000 |} ]}).
Proof.
  refine (proj1 (proj2 (C2_rejection_idempotent RATE_LIMIT "k"
            {| count := 100; resetTime := 60000 |}
            {[ "k" := {| count := 100; resetTime := 60000 |} ]} _ _))
            [500; 501; 60000] _).
  - reflexivity.
  - simpl. lia.
  - repeat constructor; unfold live; simpl; lia.
Defined.

(** C3.  Expiry is lazy and strict.  A stored record (with a count of at
    least 1, as every stored record has) is treated as absent, that is the
    call does what it would do had the record been deleted, exactly when
    [now > resetTime].  So for a key whose record is exhausted and has
    [resetTime = t0 + W]: a request at [t0 + W + eps] with [eps > 0] is
    admitted, the record is replaced by a fresh one with count 1 and
    [resetTime = (t0 + W + eps) + W], and the response reports a remaining
    quota of [M - 1] and that reset time; a request at [t0 + W] itself is
    still rejected. *)
Theorem C3_lazy_expiry cfg k r (store : Store) :
  store !! k = Some r → 1 <= count r →
  (∀ now, resetTime r < now
          ↔ isRateLimited cfg now k store = isRateLimited cfg now k (delete k store))
  ∧ (∀ t0 eps request now',
       limited_request k request →
       resetTime r = t0 + windowMs cfg → maxRequests cfg <= count r → 0 < eps →
       let now := t0 + windowMs cfg + eps in
       let fresh := {| count := 1; resetTime := now + windowMs cfg |} in
       isRateLimited cfg now k store = (false, <[k := fresh]> store)
       ∧ ∃ resp, middleware cfg request now now' store = (resp, <[k := fresh]> store)
           ∧ status resp = 200
           ∧ reported_remaining resp
             = Some (Js.Number_toString (maxRequests cfg - 1))
           ∧ reported_reset resp
             = Some (Js.Date_toISOString (now + windowMs cfg)))
  ∧ (∀ t0, resetTime r = t0 + windowMs cfg → maxRequests cfg <= count r →
       isRateLimited cfg (t0 + windowMs cfg) k store = (true, store)).
Proof.
  intros Hk Hpos. split; [|split].
  - intros now.
    rewrite (isRateLimited_absent cfg now k (delete k store))
      by apply lookup_delete_eq.
    rewrite insert_delete_eq. split.
    + intros Hexp. by apply isRateLimited_expired with r.
    + intros Heq. destruct (Z.lt_ge_cases (resetTime r) now) as [|Hlive]; [done|].
      exfalso. destruct (Z.le_gt_cases (maxRequests cfg) (count r)).
      * rewrite (isRateLimited_exhausted cfg now k r) in Heq by done. discriminate.
      * rewrite (isRateLimited_counted cfg now k r) in Heq by done.
        injection Heq as Heq.
        apply (f_equal (λ s : Store, s !! k)) in Heq.
        rewrite !lookup_insert_eq in Heq. injection Heq as Hc _. lia.
  - intros t0 eps request now' Hreq HR Hfull Heps now fresh.
    assert (Hexp : resetTime r < now) by (unfold now; lia).
    split; [by apply isRateLimited_expired with r|].
    exists (withRateLimitHeaders cfg fresh). split.
    + rewrite (middleware_fresh cfg k) by (try rewrite Hk; done). done.
    + by repeat split.
  - intros t0 HR Hfull. apply isRateLimited_exhausted with r; try done.
    unfold live. lia.
Qed.

(** The source's configuration: the key is exhausted in the window that
    ends at 60000; one millisecond later a new window opens. *)
Lemma C3_lazy_expiry_witness :
  isRateLimited RATE_LIMIT 60001 "rate_limit:9.9.9.9"
    {[ "rate_limit:9.9.9.9" := {| count := 100; resetTime := 60000 |} ]}
  = (false, <[ "rate_limit:9.9.9.9" := {| count := 1; resetTime := 120001 |} ]>
              {[ "rate_limit:9.9.9.9" := {| count := 100; resetTime := 60000 |} ]}).
Proof.
  refine (proj1 (proj1 (proj2 (C3_lazy_expiry RATE_LIMIT "rate_limit:9.9.9.9"
            {| count := 100; resetTime := 60000 |}
            {[ "rate_limit:9.9.9.9" := {| count := 100; resetTime := 60000 |} ]} _ _))
            0 1 (mkRequest None (Some "9.9.9.9") "/api/jobs") 60001 _ _ _ _)).
  - reflexivity.
  - simpl. lia.
  - split; reflexivity.
  - reflexivity.
  - simpl. lia.
  - lia.
Defined.

(** C4.  Keys are independent.  For two distinct keys [A] and [B], any
    number of evaluations of [A] (enough to exhaust it, say) leaves the
    record stored under [B] as it was, and with it whatever is decided for
    [B] afterwards: the boolean of [isRateLimited], the record it leaves
    under [B], and the response of [middleware] to a request of key [B]
    are the same as if [A] had never been evaluated. *)
Theorem C4_key_independence cfg (A B : string) (store : Store) :
  A ≠ B →
  (∀ now, (isRateLimited cfg now A store).2 !! B = store !! B)
  ∧ (∀ nows,
       let store' := (evaluate_all cfg A nows store).2 in
       store' !! B = store !! B
       ∧ (∀ now, (isRateLimited cfg now B store').1
                 = (isRateLimited cfg now B store).1)
       ∧ (∀ now, (isRateLimited cfg now B store').2 !! B
                 = (isRateLimited cfg now B store).2 !! B)
       ∧ (∀ request now now', limited_request B request →
            (middleware cfg request now now' store').1
            = (middleware cfg request now now' store).1)).
Proof.
  intros Hne.
  assert (Hstep : ∀ now (s : Store), (isRateLimited cfg now A s).2 !! B = s !! B).
  { intros now s. unfold isRateLimited.
    destruct (s !! A) as [r|]; simpl; [|by rewrite lookup_insert_ne].
    destruct (now >? resetTime r); simpl; [by rewrite lookup_insert_ne|].
    destruct (count r >=? maxRequests cfg); simpl; [done|].
    by rewrite lookup_insert_ne. }
  assert (Hlocal : ∀ now (s1 s2 : Store), s1 !! B = s2 !! B →
            (isRateLimited cfg now B s1).1 = (isRateLimited cfg now B s2).1
            ∧ (isRateLimited cfg now B s1).2 !! B = (isRateLimited cfg now B s2).2 !! B).
  { intros now s1 s2 Heq. unfold isRateLimited. rewrite Heq.
    destruct (s2 !! B) as [r|] eqn:HB; simpl; [|by rewrite !lookup_insert_eq].
    destruct (now >? resetTime r); simpl; [by rewrite !lookup_insert_eq|].
    destruct (count r >=? maxRequests cfg); simpl; [by rewrite Heq|].
    by rewrite !lookup_insert_eq. }
  split; [done|].
  intros nows store'.
  assert (HB : store' !! B = store !! B).
  { unfold store'. clear store'. revert store.
    induction nows as [|now nows IH]; intros store; [done|]. simpl.
    specialize (Hstep now store).
    destruct (isRateLimited cfg now A store) as [b s1]. simpl in Hstep.
    specialize (IH s1). destruct (evaluate_all cfg A nows s1) as [bs s2].
    simpl in *. congruence. }
  split; [done|]. split; [|split].
  - intros now. by apply Hlocal.
  - intros now. by apply Hlocal.
  - intros request now now' Hreq.
    rewrite !(middleware_limited cfg B) by done. simpl.
    destruct (Hlocal now store' store HB) as [-> ->]. done.
Qed.

(** Key ["a"] is driven to its limit at time 0; key ["b"] is as it was. *)
Lemma C4_key_independence_witness :
  (evaluate_all RATE_LIMIT "a" (replicate 101 0) ∅).2 !! "b" = (∅ : Store) !! "b".
Proof.
  refine (proj1 (proj2 (C4_key_independence RATE_LIMIT "a" "b" ∅ _)
                   (replicate 101 0))).
  discriminate.
Defined.

(** ** Key derivation *)

Lemma split_first_entry s :
  ∃ pieces, Js.split "," s = first_entry s :: pieces.
Proof.
  induction s as [|c rest [pieces IH]]; simpl; [by eexists|].
  destruct (Ascii.eqb c ","); [by eexists|].
  rewrite IH. by eexists.
Qed.

Lemma first_entry_app e rest :
  has_comma e = false → first_entry (e +:+ "," +:+ rest) = e.
Proof.
  induction e as [|c e IH]; simpl; [done|].
  destruct (Ascii.eqb c ","); simpl; [done|].
  intros H. by rewrite IH.
Qed.

Lemma getRateLimitKey_forwarded request f :
  x_forwarded_for request = Some f → f ≠ EmptyString →
  getRateLimitKey request = "rate_limit:" +:+ first_entry f.
Proof.
  intros Hf Hne. unfold getRateLimitKey. rewrite Hf.
  destruct (String.eqb_spec f EmptyString); [done|].
  by destruct (split_first_entry f) as [pieces ->].
Qed.

Lemma getRateLimitKey_fallback request :
  x_forwarded_for request = None ∨ x_forwarded_for request = Some EmptyString →
  getRateLimitKey request = "rate_limit:" +:+ Js.or_else (ip request) "unknown".
Proof. intros [H|H]; unfold getRateLimitKey; by rewrite H. Qed.

(** C5 as the claim has it fails on a forwarded-address header that is
    present and empty: the key is then built from the connection address,
    not from the (empty) first entry of the header. *)
Lemma C5_key_derivation_counterexample :
  x_forwarded_for (mkRequest (Some EmptyString) (Some "10.0.0.1") "/api/jobs") = Some EmptyString
  ∧ getRateLimitKey (mkRequest (Some EmptyString) (Some "10.0.0.1") "/api/jobs")
    = "rate_limit:10.0.0.1"
  ∧ getRateLimitKey (mkRequest (Some EmptyString) (Some "10.0.0.1") "/api/jobs")
    ≠ "rate_limit:" +:+ first_entry EmptyString.
Proof. repeat split. discriminate. Qed.

(** C5, amended.  [getRateLimitKey] is a total function of the request and
    its result always starts with ["rate_limit:"].  When the
    forwarded-address header is present and not the empty string, the key
    is that prefix followed by the first comma-separated entry of the
    header, whatever follows the first comma (["1.2.3.4, 5.6.7.8"] gives
    ["rate_limit:1.2.3.4"]).  When the header is absent or empty, the
    connection address is used if it is present and not empty, and the
    literal ["unknown"] otherwise. *)
Theorem C5_key_derivation request :
  (∃ ip, getRateLimitKey request = "rate_limit:" +:+ ip)
  ∧ (∀ f, x_forwarded_for request = Some f → f ≠ EmptyString →
       getRateLimitKey request = "rate_limit:" +:+ first_entry f)
  ∧ (∀ e rest, x_forwarded_for request = Some (e +:+ "," +:+ rest) →
       has_comma e = false →
       getRateLimitKey request = "rate_limit:" +:+ e)
  ∧ (x_forwarded_for request = Some "1.2.3.4, 5.6.7.8" →
       getRateLimitKey request = "rate_limit:1.2.3.4")
  ∧ (x_forwarded_for request = None ∨ x_forwarded_for request = Some EmptyString →
       (∀ a, ip request = Some a → a ≠ EmptyString →
          getRateLimitKey request = "rate_limit:" +:+ a)
       ∧ (ip request = None ∨ ip request = Some EmptyString →
          getRateLimitKey request = "rate_limit:unknown")).
Proof.
  split; [by eexists|]. split; [apply getRateLimitKey_forwarded|].
  split; [|split].
  - intros e rest Hf He.
    rewrite (getRateLimitKey_forwarded request _ Hf).
    + by rewrite first_entry_app.
    + by destruct e.
  - intros Hf. by rewrite (getRateLimitKey_forwarded request _ Hf).
  - intros Hno. rewrite (getRateLimitKey_fallback request Hno). split.
    + intros a -> Ha. simpl. by destruct (String.eqb_spec a EmptyString).
    + by intros [-> | ->].
Qed.

Lemma C5_key_derivation_witness :
  getRateLimitKey (api_request "1.2.3.4, 5.6.7.8") = "rate_limit:1.2.3.4"
  ∧ getRateLimitKey (mkRequest None (Some "9.9.9.9") "/api/jobs")
    = "rate_limit:9.9.9.9"
  ∧ getRateLimitKey (mkRequest None None "/api/jobs") = "rate_limit:unknown".
Proof.
  split; [|split].
  - refine (proj1 (proj2 (proj2 (C5_key_derivation
              (api_request "1.2.3.4, 5.6.7.8")))) "1.2.3.4" " 5.6.7.8" _ _);
      reflexivity.
  - refine (proj1 (proj2 (proj2 (proj2 (proj2 (C5_key_derivation
              (mkRequest None (Some "9.9.9.9") "/api/jobs"))))) _)
              "9.9.9.9" _ _).
    + left; reflexivity.
    + reflexivity.
    + discriminate.
  - refine (proj2 (proj2 (proj2 (proj2 (proj2 (C5_key_derivation
              (mkRequest None None "/api/jobs"))))) _) _);
      left; reflexivity.
Defined.

(** ** Responses *)

Lemma Math_ceil_div_exact a b :
  0 < b → (b | a) → Js.Math_ceil_div a b = a / b.
Proof.
  intros Hb [q ->]. unfold Js.Math_ceil_div.
  rewrite <- Z.mul_opp_l, !Z.div_mul by lia. lia.
Qed.

(** The store after [middleware]: touched by [isRateLimited] on API routes
    only. *)
Lemma middleware_store cfg request now now' (store : Store) :
  (middleware cfg request now now' store).2
  = if Js.startsWith (pathname request) "/api/"
    then (isRateLimited cfg now (getRateLimitKey request) store).2
    else store.
Proof.
  unfold middleware. destruct (Js.startsWith _ _); [|done].
  destruct (isRateLimited _ _ _ _) as [[] store']; simpl; [done|].
  by destruct (store' !! _).
Qed.

(** C6.  The response to a rejected request.  Whenever [isRateLimited]
    returns [true] for an API request, the response has status 429; its
    body carries [retryAfter = windowMs / 1000] (the window length in
    seconds, whatever is left of the window); the [Retry-After] header is
    that same number, [X-RateLimit-Limit] is [maxRequests],
    [X-RateLimit-Remaining] is 0, and [X-RateLimit-Reset] is the ISO time
    stamp of the clock reading plus [windowMs], which does not look at the
    stored record.  The code rounds [windowMs / 1000] up with [Math.ceil];
    for a window of whole seconds, as the source's 60000 ms, that is the
    quotient itself. *)
Theorem C6_rejection_response cfg request now now' (store : Store) :
  Js.startsWith (pathname request) "/api/" = true →
  (isRateLimited cfg now (getRateLimitKey request) store).1 = true →
  (1000 | windowMs cfg) →
  (middleware cfg request now now' store).1 = tooManyRequests cfg now'
  ∧ status (tooManyRequests cfg now') = 429
  ∧ body (tooManyRequests cfg now')
    = Some [ ("error", JString "Too many requests");
             ("message", JString ("Rate limit exceeded. Maximum "
                                   +:+ Js.Number_toString (maxRequests cfg)
                                   +:+ " requests per minute."));
             ("retryAfter", JNumber (windowMs cfg / 1000)) ]
  ∧ headers (tooManyRequests cfg now')
    = [ ("Retry-After", Js.Number_toString (windowMs cfg / 1000));
        ("X-RateLimit-Limit", Js.Number_toString (maxRequests cfg));
        ("X-RateLimit-Remaining", "0");
        ("X-RateLimit-Reset", Js.Date_toISOString (now' + windowMs cfg)) ].
Proof.
  intros Hapi Hlimited Hdiv.
  rewrite (middleware_limited cfg (getRateLimitKey request)) by done.
  simpl. rewrite Hlimited.
  unfold tooManyRequests, NextResponse_json. simpl.
  by rewrite Math_ceil_div_exact by (done || lia).
Qed.

(** The 101st request of a burst, half a second into the window: retry
    after 60 seconds, reset reported at 60.5 s although the window ends at
    60 s. *)
Lemma C6_rejection_response_witness :
  (middleware RATE_LIMIT (api_request "1.2.3.4") 500 500
     {[ "rate_limit:1.2.3.4" := {| count := 100; resetTime := 60000 |} ]}).1
  = tooManyRequests RATE_LIMIT 500
  ∧ headers (tooManyRequests RATE_LIMIT 500)
    = [ ("Retry-After", "60"); ("X-RateLimit-Limit", "100");
        ("X-RateLimit-Remaining", "0");
        ("X-RateLimit-Reset", "1970-01-01T00:01:00.500Z") ].
Proof.
  pose proof (C6_rejection_response RATE_LIMIT (api_request "1.2.3.4") 500 500
            {[ "rate_limit:1.2.3.4" := {| count := 100; resetTime := 60000 |} ]})
    as H.
  destruct H as (Hresp & _ & _ & Hheaders).
  - reflexivity.
  - reflexivity.
  - exists 60. reflexivity.
  - split; [exact Hresp | exact Hheaders].
Defined.

(** C7 as the claim has it fails on the rejection path: the 101st request
    of a burst is evaluated against the window that ends at 60000, which
    is still the stored record afterwards, but the response reports the
    reset at 60500, the clock reading plus [windowMs]. *)
Lemma C7_decision_postconditions_counterexample :
  status (default NextResponse_next
            ((serve RATE_LIMIT (burst "1.2.3.4" 100) ∅).1 !! 100%nat)) = 429
  ∧ (serve RATE_LIMIT (burst "1.2.3.4" 99) ∅).2 !! "rate_limit:1.2.3.4"
    = Some {| count := 100; resetTime := 60000 |}
  ∧ (serve RATE_LIMIT (burst "1.2.3.4" 100) ∅).2 !! "rate_limit:1.2.3.4"
    = Some {| count := 100; resetTime := 60000 |}
  ∧ reported_reset (default NextResponse_next
                      ((serve RATE_LIMIT (burst "1.2.3.4" 100) ∅).1 !! 100%nat))
    = Some "1970-01-01T00:01:00.500Z"
  ∧ Js.Date_toISOString 60000 = "1970-01-01T00:01:00.000Z"
  ∧ reported_reset (default NextResponse_next
                      ((serve RATE_LIMIT (burst "1.2.3.4" 100) ∅).1 !! 100%nat))
    ≠ Some (Js.Date_toISOString 60000).
Proof. vm_compute. repeat split; discriminate. Qed.

(** C7, amended.  Every evaluation of an API request either admits it
    (status 200) or rejects it (status 429), never both.  When it admits,
    the reported remaining quota is [maxRequests - count] of the record
    now stored, a number between 0 and [maxRequests - 1], and the reported
    reset time is the [resetTime] of that record: [now + windowMs] when the
    request opened a window, the untouched [resetTime] of the live record
    otherwise.  When it rejects, the reported remaining quota is 0, the
    store is unchanged, and the reported reset time is the clock reading
    plus [windowMs] (not the [resetTime] of the live record). *)
Theorem C7_decision_postconditions cfg request now now' (store : Store) :
  1 <= maxRequests cfg → store_ok cfg store →
  Js.startsWith (pathname request) "/api/" = true →
  let k := getRateLimitKey request in
  let limited := (isRateLimited cfg now k store).1 in
  let resp := (middleware cfg request now now' store).1 in
  let store' := (middleware cfg request now now' store).2 in
  (limited = false ∧ status resp = 200
   ∧ ∃ record, store' !! k = Some record
       ∧ 0 <= maxRequests cfg - count record <= maxRequests cfg - 1
       ∧ reported_remaining resp
         = Some (Js.Number_toString (maxRequests cfg - count record))
       ∧ reported_reset resp = Some (Js.Date_toISOString (resetTime record))
       ∧ resetTime record
         = match store !! k with
           | Some old => if now >? resetTime old then now + windowMs cfg
                         else resetTime old
           | None => now + windowMs cfg
           end)
  ∨ (limited = true ∧ status resp = 429
     ∧ reported_remaining resp = Some "0"
     ∧ reported_reset resp = Some (Js.Date_toISOString (now' + windowMs cfg))
     ∧ store' = store).
Proof.
  intros HM Hok Hapi k limited resp store'.
  assert (Hreq : limited_request k request) by done.
  unfold limited, resp, store'. clear limited resp store'.
  destruct (isRateLimited_cases cfg now k store)
    as [[Hk Hrun] | [(r & Hk & Hexp & Hrun) | [(r & Hk & Hlive & Hfull & Hrun)
                                               | (r & Hk & Hlive & Hroom & Hrun)]]].
  - left. rewrite Hrun, (middleware_fresh cfg k) by (try rewrite Hk; done).
    simpl. split; [done|]. split; [done|].
    exists (fresh_record cfg now). rewrite lookup_insert_eq, Hk. simpl.
    repeat split; try done; lia.
  - left. rewrite Hrun, (middleware_fresh cfg k) by (try rewrite Hk; done).
    simpl. split; [done|]. split; [done|].
    exists (fresh_record cfg now). rewrite lookup_insert_eq, Hk. simpl.
    destruct (Z.gtb_spec now (resetTime r)); [|lia].
    repeat split; try done; lia.
  - right. rewrite Hrun, (middleware_exhausted cfg k _ _ _ r) by done. done.
  - left. rewrite Hrun, (middleware_counted cfg k _ _ _ r) by done.
    simpl. split; [done|]. split; [done|].
    eexists. rewrite lookup_insert_eq, Hk. split; [done|]. simpl.
    pose proof (Hok k r Hk) as Hr. simpl in Hr. unfold live in Hlive.
    destruct (Z.gtb_spec now (resetTime r)); [lia|].
    repeat split; try done; lia.
Qed.

Lemma C7_decision_postconditions_witness :
  (isRateLimited RATE_LIMIT 500 "rate_limit:1.2.3.4"
     {[ "rate_limit:1.2.3.4" := {| count := 100; resetTime := 60000 |} ]}).1 = true
  ∧ reported_reset
      (middleware RATE_LIMIT (api_request "1.2.3.4") 500 500
         {[ "rate_limit:1.2.3.4" := {| count := 100; resetTime := 60000 |} ]}).1
    = Some (Js.Date_toISOString (500 + 60000)).
Proof.
  destruct (C7_decision_postconditions RATE_LIMIT (api_request "1.2.3.4") 500 500
              {[ "rate_limit:1.2.3.4" := {| count := 100; resetTime := 60000 |} ]})
    as [(Hadm & _) | (Hrej & _ & _ & Hreset & _)].
  - simpl. lia.
  - apply map_Forall_singleton. simpl. lia.
  - reflexivity.
  - discriminate Hadm.
  - split; [exact Hrej | exact Hreset].
Defined.

(** ** Records and the store *)

Lemma isRateLimited_frame cfg now k k' (store : Store) :
  k' ≠ k → (isRateLimited cfg now k store).2 !! k' = store !! k'.
Proof.
  intros Hne.
  destruct (isRateLimited_cases cfg now k store)
    as [[_ ->] | [(r & _ & _ & ->) | [(r & _ & _ & _ & ->) | (r & _ & _ & _ & ->)]]];
    simpl; rewrite ?lookup_insert_ne; done.
Qed.

(** Inside a live window the record keeps its [resetTime] and its count
    does not go down, whatever number of evaluations come. *)
Lemma evaluate_all_live cfg k (nows : list Z) : ∀ r (store : Store),
  store !! k = Some r → Forall (λ now, live now r) nows →
  ∃ r', (evaluate_all cfg k nows store).2 !! k = Some r'
        ∧ resetTime r' = resetTime r ∧ count r <= count r'.
Proof.
  induction nows as [|now nows IH]; intros r store Hk Hall; simpl.
  { exists r. split; [done|]. split; [done|lia]. }
  apply Forall_cons in Hall as [Hlive Hall].
  destruct (Z.le_gt_cases (maxRequests cfg) (count r)) as [Hfull|Hroom].
  - rewrite (isRateLimited_exhausted cfg now k r) by done.
    destruct (IH r store Hk Hall) as (r' & Hr' & HR & Hc).
    destruct (evaluate_all cfg k nows store). by exists r'.
  - rewrite (isRateLimited_counted cfg now k r) by done.
    destruct (IH {| count := count r + 1; resetTime := resetTime r |}
                 (<[k := {| count := count r + 1; resetTime := resetTime r |}]> store))
      as (r' & Hr' & HR & Hc); [apply lookup_insert_eq | done |].
    destruct (evaluate_all cfg k nows _). exists r'. simpl in *.
    split; [done|]. split; [done|lia].
Qed.

(** C8.  What an evaluation does to the record of its key.  If the record
    is live, it keeps its [resetTime] and its count stays or goes up by
    one, and so through any run of evaluations inside the window.  If the
    record is absent or expired, it is replaced by a fresh one with count 1
    and [resetTime = now + windowMs].  Conversely a count that went down
    or a [resetTime] that changed means that the old record had expired.
    The store is a map: only the entry of the key is written, and the keys
    afterwards are the keys before together with this one. *)
Theorem C8_record_invariants cfg now k (store : Store) :
  let store' := (isRateLimited cfg now k store).2 in
  (∀ r, store !! k = Some r → live now r →
     ∃ r', store' !! k = Some r' ∧ resetTime r' = resetTime r
           ∧ count r <= count r' <= count r + 1)
  ∧ (∀ r nows, store !! k = Some r → Forall (λ t, live t r) nows →
       ∃ r', (evaluate_all cfg k nows store).2 !! k = Some r'
             ∧ resetTime r' = resetTime r ∧ count r <= count r')
  ∧ (match store !! k with Some r => resetTime r < now | None => True end →
       store' !! k = Some {| count := 1; resetTime := now + windowMs cfg |})
  ∧ (∀ r r', store !! k = Some r → store' !! k = Some r' →
       count r' < count r ∨ resetTime r' ≠ resetTime r →
       resetTime r < now ∧ r' = {| count := 1; resetTime := now + windowMs cfg |})
  ∧ (∀ k', k' ≠ k → store' !! k' = store !! k')
  ∧ dom store' = dom store ∪ {[ k ]}.
Proof.
  intros store'. unfold store'. clear store'.
  split; [|split; [|split; [|split; [|split]]]].
  - intros r Hk Hlive.
    destruct (Z.le_gt_cases (maxRequests cfg) (count r)) as [Hfull|Hroom].
    + rewrite (isRateLimited_exhausted cfg now k r) by done.
      exists r. simpl. split; [done|]. split; [done|lia].
    + rewrite (isRateLimited_counted cfg now k r) by done.
      eexists. simpl. rewrite lookup_insert_eq. split; [done|].
      simpl. split; [done|lia].
  - intros r nows Hk Hall. by apply evaluate_all_live.
  - intros Hfresh. destruct (store !! k) as [r|] eqn:Hk.
    + rewrite (isRateLimited_expired cfg now k r) by done.
      simpl. by rewrite lookup_insert_eq.
    + rewrite isRateLimited_absent by done. simpl. by rewrite lookup_insert_eq.
  - intros r r' Hk Hk' Hchanged.
    destruct (Z.lt_ge_cases (resetTime r) now) as [Hexp|Hlive].
    + split; [done|].
      rewrite (isRateLimited_expired cfg now k r) in Hk' by done.
      simpl in Hk'. rewrite lookup_insert_eq in Hk'. by injection Hk' as <-.
    + exfalso. destruct (Z.le_gt_cases (maxRequests cfg) (count r)).
      * rewrite (isRateLimited_exhausted cfg now k r) in Hk' by done.
        simpl in Hk'. rewrite Hk in Hk'. injection Hk' as <-. lia.
      * rewrite (isRateLimited_counted cfg now k r) in Hk' by done.
        simpl in Hk'. rewrite lookup_insert_eq in Hk'. injection Hk' as <-.
        simpl in Hchanged. lia.
  - intros k' Hne. by apply isRateLimited_frame.
  - destruct (isRateLimited_cases cfg now k store)
      as [[_ ->] | [(r & _ & _ & ->) | [(r & Hk & _ & _ & ->) | (r & _ & _ & _ & ->)]]];
      simpl; rewrite ?dom_insert_L; try apply union_comm_L.
    rewrite union_comm_L. symmetry. apply subseteq_union_1_L.
    apply singleton_subseteq_l. by apply elem_of_dom_2 with r.
Qed.

Lemma C8_record_invariants_witness :
  (isRateLimited RATE_LIMIT 500 "k"
     {[ "k" := {| count := 7; resetTime := 60000 |} ]}).2 !! "k"
  = Some {| count := 8; resetTime := 60000 |}
  ∧ (isRateLimited RATE_LIMIT 60001 "k"
       {[ "k" := {| count := 7; resetTime := 60000 |} ]}).2 !! "k"
    = Some {| count := 1; resetTime := 120001 |}.
Proof.
  split.
  - destruct (proj1 (C8_record_invariants RATE_LIMIT 500 "k"
              {[ "k" := {| count := 7; resetTime := 60000 |} ]})
              {| count := 7; resetTime := 60000 |}) as (r' & Hr' & _).
    + reflexivity.
    + unfold live. simpl. lia.
    + reflexivity.
  - refine (proj1 (proj2 (proj2 (C8_record_invariants RATE_LIMIT 60001 "k"
              {[ "k" := {| count := 7; resetTime := 60000 |} ]}))) _).
    vm_compute. reflexivity.
Defined.

(** C9.  An admitted key has a record.  Whenever [isRateLimited] returns
    [false], the store it leaves holds a record under the key; so the
    lookup of the admitted path finds it, and the response to an admitted
    API request is the one that carries [X-RateLimit-Limit],
    [X-RateLimit-Remaining] and [X-RateLimit-Reset]. *)
Theorem C9_admitted_has_record cfg now k (store : Store) :
  (isRateLimited cfg now k store).1 = false →
  is_Some ((isRateLimited cfg now k store).2 !! k)
  ∧ ∀ request now', limited_request k request →
      ∃ record,
        (middleware cfg request now now' store).2 !! k = Some record
        ∧ (middleware cfg request now now' store).1
          = withRateLimitHeaders cfg record
        ∧ headers (withRateLimitHeaders cfg record)
          = [ ("X-RateLimit-Limit", Js.Number_toString (maxRequests cfg));
              ("X-RateLimit-Remaining",
               Js.Number_toString (maxRequests cfg - count record));
              ("X-RateLimit-Reset", Js.Date_toISOString (resetTime record)) ].
Proof.
  intros Hadmit.
  assert (Hsome : is_Some ((isRateLimited cfg now k store).2 !! k)).
  { destruct (isRateLimited_cases cfg now k store)
      as [[_ Hrun] | [(r & _ & _ & Hrun) | [(r & _ & _ & _ & Hrun)
                                           | (r & _ & _ & _ & Hrun)]]];
      rewrite Hrun in *; simpl in *; rewrite ?lookup_insert_eq; by eauto. }
  split; [done|].
  intros request now' Hreq. destruct Hsome as [record Hrecord].
  exists record. rewrite (middleware_limited cfg k) by done. simpl.
  by rewrite Hadmit, Hrecord.
Qed.

Lemma C9_admitted_has_record_witness :
  is_Some ((isRateLimited RATE_LIMIT 0 "rate_limit:1.2.3.4" ∅).2
             !! "rate_limit:1.2.3.4").
Proof.
  refine (proj1 (C9_admitted_has_record RATE_LIMIT 0 "rate_limit:1.2.3.4" ∅ _)).
  reflexivity.
Defined.

Lemma isRateLimited_store_ok cfg now k (store : Store) :
  1 <= maxRequests cfg → store_ok cfg store →
  store_ok cfg (isRateLimited cfg now k store).2.
Proof.
  intros HM Hok.
  destruct (isRateLimited_cases cfg now k store)
    as [[_ ->] | [(r & _ & _ & ->) | [(r & _ & _ & _ & ->) | (r & Hk & _ & Hroom & ->)]]];
    simpl; try done.
  - apply map_Forall_insert_2; [simpl; lia | done].
  - apply map_Forall_insert_2; [simpl; lia | done].
  - apply map_Forall_insert_2; [|done].
    pose proof (Hok k r Hk) as Hr. simpl in *. lia.
Qed.

(** C10.  The count of a stored record is never below 1 and never above
    [maxRequests].  The empty store of a starting process has the
    property, [isRateLimited] and [middleware] keep it, and so every
    store that any sequence of requests leads to has it. *)
Theorem C10_count_bounded cfg :
  1 <= maxRequests cfg →
  store_ok cfg ∅
  ∧ (∀ now k store, store_ok cfg store →
       store_ok cfg (isRateLimited cfg now k store).2)
  ∧ (∀ evs store, store_ok cfg store → store_ok cfg (serve cfg evs store).2)
  ∧ (∀ evs k r, (serve cfg evs ∅).2 !! k = Some r →
       1 <= count r <= maxRequests cfg).
Proof.
  intros HM.
  assert (Hserve : ∀ evs store, store_ok cfg store →
                     store_ok cfg (serve cfg evs store).2).
  { induction evs as [|e evs IH]; intros store Hok; [done|]. simpl.
    pose proof (middleware_store cfg (ev_request e) (ev_now e) (ev_now' e) store) as Hst.
    destruct (middleware cfg _ _ _ store) as [resp store1]. simpl in Hst.
    assert (Hok1 : store_ok cfg store1).
    { rewrite Hst. destruct (Js.startsWith _ _); [|done].
      by apply isRateLimited_store_ok. }
    specialize (IH store1 Hok1).
    by destruct (serve cfg evs store1). }
  split; [apply map_Forall_empty|].
  split; [intros; by apply isRateLimited_store_ok|].
  split; [done|].
  intros evs k r Hk.
  exact (Hserve evs ∅ (map_Forall_empty _) k r Hk).
Qed.

(** After a burst of 151 requests the count stands at the limit. *)
Lemma C10_count_bounded_witness :
  (serve RATE_LIMIT (burst "1.2.3.4" 150) ∅).2 !! "rate_limit:1.2.3.4"
  = Some {| count := 100; resetTime := 60000 |}
  ∧ 1 <= count {| count := 100; resetTime := 60000 |} <= maxRequests RATE_LIMIT.
Proof.
  assert (Hrun : (serve RATE_LIMIT (burst "1.2.3.4" 150) ∅).2 !! "rate_limit:1.2.3.4"
                 = Some {| count := 100; resetTime := 60000 |})
    by (vm_compute; reflexivity).
  split; [exact Hrun|].
  refine (proj2 (proj2 (proj2 (C10_count_bounded RATE_LIMIT _)))
            (burst "1.2.3.4" 150) "rate_limit:1.2.3.4"
            {| count := 100; resetTime := 60000 |} Hrun).
  simpl. lia.
Defined.

(** ** Further properties of the middleware *)

Section Traces.

Variable cfg : Config.
Local Abbreviation W := (windowMs cfg).
Local Abbreviation M := (maxRequests cfg).

Lemma middleware_other request now now' (store : Store) :
  Js.startsWith (pathname request) "/api/" = false →
  middleware cfg request now now' store
  = ({| status := 200; body := None;
        headers := [ ("X-Content-Type-Options", "nosniff");
                     ("X-Frame-Options", "DENY");
                     ("X-XSS-Protection", "1; mode=block");
                     ("Referrer-Policy", "strict-origin-when-cross-origin") ] |},
     store).
Proof. intros Hapi. unfold middleware, secured. by rewrite Hapi. Qed.

(** After an admission the key has a record. *)
Lemma isRateLimited_admit_record now k (store : Store) :
  (isRateLimited cfg now k store).1 = false →
  ∃ record, (isRateLimited cfg now k store).2 !! k = Some record.
Proof.
  destruct (isRateLimited_cases cfg now k store)
    as [[_ ->] | [(r & _ & _ & ->) | [(r & _ & _ & _ & ->) | (r & _ & _ & _ & ->)]]];
    simpl; intros ?; rewrite ?lookup_insert_eq; by eauto.
Qed.

(** The three shapes a response can have. *)
Lemma middleware_shape request now now' (store : Store) :
  let resp := (middleware cfg request now now' store).1 in
  let k := getRateLimitKey request in
  (Js.startsWith (pathname request) "/api/" = false ∧ resp = secured request)
  ∨ (Js.startsWith (pathname request) "/api/" = true
     ∧ (isRateLimited cfg now k store).1 = true
     ∧ resp = tooManyRequests cfg now')
  ∨ (Js.startsWith (pathname request) "/api/" = true
     ∧ (isRateLimited cfg now k store).1 = false
     ∧ ∃ record, (isRateLimited cfg now k store).2 !! k = Some record
                 ∧ resp = withRateLimitHeaders cfg record).
Proof.
  simpl. destruct (Js.startsWith (pathname request) "/api/") eqn:Hapi.
  - right. rewrite (middleware_limited cfg (getRateLimitKey request)) by done.
    simpl. destruct (isRateLimited cfg now _ store).1 eqn:Hlim.
    + left. done.
    + right. destruct (isRateLimited_admit_record _ _ _ Hlim) as [record Hrec].
      rewrite Hrec. eauto.
  - left. unfold middleware. by rewrite Hapi.
Qed.

(** The boolean of [isRateLimited] and the record it leaves under its key
    depend on the store through the entry of that key only. *)
Lemma isRateLimited_local now k (s1 s2 : Store) :
  s1 !! k = s2 !! k →
  (isRateLimited cfg now k s1).1 = (isRateLimited cfg now k s2).1
  ∧ (isRateLimited cfg now k s1).2 !! k = (isRateLimited cfg now k s2).2 !! k.
Proof.
  intros Heq. unfold isRateLimited. rewrite Heq.
  destruct (s2 !! k) as [r|] eqn:Hk; simpl; [|by rewrite !lookup_insert_eq].
  destruct (now >? resetTime r); simpl; [by rewrite !lookup_insert_eq|].
  destruct (count r >=? M); simpl; [by rewrite Heq|].
  by rewrite !lookup_insert_eq.
Qed.

Lemma serve_app (evs1 evs2 : list Event) : ∀ (store : Store),
  serve cfg (evs1 ++ evs2) store
  = ((serve cfg evs1 store).1 ++ (serve cfg evs2 (serve cfg evs1 store).2).1,
     (serve cfg evs2 (serve cfg evs1 store).2).2).
Proof.
  induction evs1 as [|e evs1 IH]; intros store; simpl.
  { by destruct (serve cfg evs2 store). }
  destruct (middleware cfg _ _ _ store) as [r store1].
  rewrite IH. by destruct (serve cfg evs1 store1).
Qed.

Lemma serve_cons e (evs : list Event) (store : Store) :
  serve cfg (e :: evs) store
  = ((middleware cfg (ev_request e) (ev_now e) (ev_now' e) store).1
       :: (serve cfg evs (middleware cfg (ev_request e) (ev_now e) (ev_now' e) store).2).1,
     (serve cfg evs (middleware cfg (ev_request e) (ev_now e) (ev_now' e) store).2).2).
Proof.
  simpl. destruct (middleware cfg _ _ _ store) as [r store1]. simpl.
  by destruct (serve cfg evs store1).
Qed.

(** The response to the [i]-th event is the response of [middleware] on the
    store the events before it have left. *)
Lemma serve_lookup (evs : list Event) : ∀ (store : Store) i e,
  evs !! i = Some e →
  (serve cfg evs store).1 !! i
  = Some (middleware cfg (ev_request e) (ev_now e) (ev_now' e)
            (serve cfg (take i evs) store).2).1.
Proof.
  induction evs as [|e0 evs IH]; intros store i e Hi; [by rewrite lookup_nil in Hi|].
  rewrite serve_cons. destruct i as [|j]; simpl in Hi.
  - injection Hi as ->. done.
  - simpl take. rewrite serve_cons. simpl. by apply IH.
Qed.

End Traces.

(** X1.  Which headers a response can carry.  The CORS headers of the tail
    of [middleware] are never set: a request outside the API does not pass
    the second path test, and a request of the API has returned before the
    tail, with the 429 response or with the rate-limit headers.  For the
    same reason a response to an API request carries none of the four
    security headers. *)
Theorem X1_headers_never_set cfg request now now' (store : Store) :
  let resp := (middleware cfg request now now' store).1 in
  (headers_get "Access-Control-Allow-Origin" (headers resp) = None
   ∧ headers_get "Access-Control-Allow-Methods" (headers resp) = None
   ∧ headers_get "Access-Control-Allow-Headers" (headers resp) = None)
  ∧ (Js.startsWith (pathname request) "/api/" = true →
     headers_get "X-Content-Type-Options" (headers resp) = None
     ∧ headers_get "X-Frame-Options" (headers resp) = None
     ∧ headers_get "X-XSS-Protection" (headers resp) = None
     ∧ headers_get "Referrer-Policy" (headers resp) = None).
Proof.
  intros resp. unfold resp. clear resp.
  destruct (middleware_shape cfg request now now' store)
    as [[Hapi ->] | [(Hapi & _ & ->) | (Hapi & _ & record & _ & ->)]].
  - split; [|congruence]. unfold secured. rewrite Hapi. by repeat split.
  - by repeat split.
  - by repeat split.
Qed.

Lemma X1_headers_never_set_witness :
  headers_get "X-Frame-Options"
    (headers (middleware RATE_LIMIT (api_request "1.2.3.4") 0 0 ∅).1) = None.
Proof.
  refine (proj1 (proj2 (proj2 (X1_headers_never_set RATE_LIMIT
            (api_request "1.2.3.4") 0 0 ∅) _))).
  reflexivity.
Defined.

(** X2.  Requests outside the API are invisible to the limiter.  Each of
    them gets status 200 with exactly the four security headers, and taking
    them out of a trace changes neither the store the trace leaves nor the
    responses given to its API requests. *)
Theorem X2_other_requests_invisible cfg (evs : list Event) (store : Store) :
  serve cfg (List.filter is_api evs) store
  = (api_responses evs (serve cfg evs store).1, (serve cfg evs store).2)
  ∧ ∀ i e, evs !! i = Some e → is_api e = false →
      (serve cfg evs store).1 !! i
      = Some {| status := 200; body := None;
                headers := [ ("X-Content-Type-Options", "nosniff");
                             ("X-Frame-Options", "DENY");
                             ("X-XSS-Protection", "1; mode=block");
                             ("Referrer-Policy", "strict-origin-when-cross-origin") ] |}.
Proof.
  split.
  - revert store. induction evs as [|e evs IH]; intros store; [done|].
    rewrite (serve_cons cfg e evs). simpl List.filter. simpl api_responses.
    destruct (is_api e) eqn:Hapi.
    + rewrite serve_cons, IH. done.
    + unfold is_api in Hapi. rewrite (middleware_other cfg) by done. simpl.
      apply IH.
  - intros i e Hi Hapi. rewrite (serve_lookup cfg evs store i e Hi).
    unfold is_api in Hapi. by rewrite (middleware_other cfg).
Qed.

Lemma X2_other_requests_invisible_witness :
  (serve RATE_LIMIT
     [at_time (mkRequest None None "/about") 7; at_time (api_request "1.2.3.4") 9] ∅).1
    !! 0%nat
  = Some {| status := 200; body := None;
            headers := [ ("X-Content-Type-Options", "nosniff");
                         ("X-Frame-Options", "DENY");
                         ("X-XSS-Protection", "1; mode=block");
                         ("Referrer-Policy", "strict-origin-when-cross-origin") ] |}.
Proof.
  refine (proj2 (X2_other_requests_invisible RATE_LIMIT
            [at_time (mkRequest None None "/about") 7;
             at_time (api_request "1.2.3.4") 9] ∅)
            0%nat (at_time (mkRequest None None "/about") 7) _ _);
    reflexivity.
Defined.

(** X3.  Requests of different clients commute.  For two API events with
    different keys, serving them in either order leaves the same store and
    gives each of them the same response. *)
Theorem X3_distinct_keys_commute cfg (e1 e2 : Event) (store : Store) :
  is_api e1 = true → is_api e2 = true → event_key e1 ≠ event_key e2 →
  (serve cfg [e1; e2] store).2 = (serve cfg [e2; e1] store).2
  ∧ (serve cfg [e1; e2] store).1 = reverse (serve cfg [e2; e1] store).1.
Proof.
  intros Hapi1 Hapi2 Hne. unfold is_api, event_key in *.
  remember (getRateLimitKey (ev_request e1)) as k1 eqn:Hk1.
  remember (getRateLimitKey (ev_request e2)) as k2 eqn:Hk2.
  assert (Hreq1 : limited_request k1 (ev_request e1)) by done.
  assert (Hreq2 : limited_request k2 (ev_request e2)) by done.
  clear Hk1 Hk2.
  rewrite !serve_cons. simpl.
  rewrite !(middleware_limited cfg k1 (ev_request e1)) by done.
  rewrite !(middleware_limited cfg k2 (ev_request e2)) by done.
  simpl.
  set (s1 := (isRateLimited cfg (ev_now e1) k1 store).2).
  set (s2 := (isRateLimited cfg (ev_now e2) k2 store).2).
  assert (H12 : s1 !! k2 = store !! k2) by (by apply isRateLimited_frame).
  assert (H21 : s2 !! k1 = store !! k1) by (by apply isRateLimited_frame).
  destruct (isRateLimited_local cfg (ev_now e2) k2 s1 store H12) as [Hb2 Hr2].
  destruct (isRateLimited_local cfg (ev_now e1) k1 s2 store H21) as [Hb1 Hr1].
  split.
  - apply map_eq. intros i.
    destruct (decide (i = k1)) as [->|Hi1]; [|destruct (decide (i = k2)) as [->|Hi2]].
    + rewrite Hr1, (isRateLimited_frame cfg _ k2 k1) by done. reflexivity.
    + rewrite Hr2, (isRateLimited_frame cfg _ k1 k2) by done. reflexivity.
    + unfold s1, s2. by rewrite !isRateLimited_frame.
  - rewrite Hb1, Hb2, Hr1, Hr2. done.
Qed.

Lemma X3_distinct_keys_commute_witness :
  (serve RATE_LIMIT [at_time (api_request "1.1.1.1") 5; at_time (api_request "2.2.2.2") 3] ∅).2
  = (serve RATE_LIMIT [at_time (api_request "2.2.2.2") 3; at_time (api_request "1.1.1.1") 5] ∅).2.
Proof.
  refine (proj1 (X3_distinct_keys_commute RATE_LIMIT
            (at_time (api_request "1.1.1.1") 5) (at_time (api_request "2.2.2.2") 3)
            ∅ _ _ _)).
  - reflexivity.
  - reflexivity.
  - vm_compute. discriminate.
Defined.

Lemma isRateLimited_dom cfg now k (store : Store) :
  dom (isRateLimited cfg now k store).2 = {[ k ]} ∪ dom store.
Proof.
  destruct (isRateLimited_cases cfg now k store)
    as [[_ ->] | [(r & _ & _ & ->) | [(r & Hk & _ & _ & ->) | (r & _ & _ & _ & ->)]]];
    simpl; rewrite ?dom_insert_L; try done.
  symmetry. apply subseteq_union_1_L, singleton_subseteq_l.
  by apply elem_of_dom_2 with r.
Qed.

Lemma api_keys_cons e (evs : list Event) :
  api_keys (e :: evs)
  = if is_api e then {[ event_key e ]} ∪ api_keys evs else api_keys evs.
Proof. unfold api_keys. simpl. by destruct (is_api e). Qed.

(** X4.  Nothing is ever removed from the store.  After any trace the keys
    of the store are the keys it had together with the keys of the API
    requests served, so no key is lost; and a key that none of these
    requests presents keeps its record as it was, however long its window
    has been over. *)
Theorem X4_store_only_grows cfg (evs : list Event) (store : Store) :
  dom (serve cfg evs store).2 = api_keys evs ∪ dom store
  ∧ dom store ⊆ dom (serve cfg evs store).2
  ∧ ∀ k, k ∉ api_keys evs → (serve cfg evs store).2 !! k = store !! k.
Proof.
  assert (Hdom : ∀ evs (store : Store),
            dom (serve cfg evs store).2 = api_keys evs ∪ dom store).
  { clear. induction evs as [|e evs IH]; intros store.
    - simpl. unfold api_keys. simpl. by rewrite union_empty_l_L.
    - rewrite serve_cons. simpl. rewrite IH, middleware_store, api_keys_cons.
      unfold is_api, event_key. destruct (Js.startsWith _ _); [|done].
      rewrite isRateLimited_dom.
      rewrite !assoc_L by apply _. f_equal. apply union_comm_L. }
  split; [apply Hdom|]. split.
  - rewrite Hdom. apply union_subseteq_r.
  - revert store. induction evs as [|e evs IH]; intros store k Hk; [done|].
    rewrite serve_cons. simpl. rewrite api_keys_cons in Hk.
    rewrite IH, middleware_store.
    + unfold is_api, event_key in Hk. destruct (Js.startsWith _ _); [|done].
      apply isRateLimited_frame. intros ->. apply Hk.
      apply elem_of_union_l, elem_of_singleton. reflexivity.
    + destruct (is_api e); [|done]. intros Hin. apply Hk.
      by apply elem_of_union_r.
Qed.

(** A record whose window ended long ago outlives the traffic of another
    client. *)
Lemma X4_store_only_grows_witness :
  (serve RATE_LIMIT (burst "1.2.3.4" 3)
     {[ "rate_limit:old" := {| count := 5; resetTime := -1000 |} ]}).2
    !! "rate_limit:old"
  = ({[ "rate_limit:old" := {| count := 5; resetTime := -1000 |} ]} : Store)
      !! "rate_limit:old".
Proof.
  refine (proj2 (proj2 (X4_store_only_grows RATE_LIMIT (burst "1.2.3.4" 3)
            {[ "rate_limit:old" := {| count := 5; resetTime := -1000 |} ]}))
            "rate_limit:old" _).
  vm_compute. discriminate.
Defined.

Lemma is_limited_request k e :
  is_limited k e = true ↔ limited_request k (ev_request e).
Proof.
  unfold is_limited, limited_request, is_api, event_key.
  rewrite andb_true_iff, String.eqb_eq. done.
Qed.

Lemma middleware_untouched cfg k e (store : Store) :
  is_limited k e = false →
  (middleware cfg (ev_request e) (ev_now e) (ev_now' e) store).2 !! k = store !! k.
Proof.
  intros Hnot. rewrite middleware_store.
  unfold is_limited, is_api, event_key in Hnot.
  destruct (Js.startsWith (pathname (ev_request e)) "/api/"); [|done].
  rewrite andb_true_l in Hnot. apply String.eqb_neq in Hnot.
  apply isRateLimited_frame. congruence.
Qed.

(** X5.  The count of a record is the number of requests admitted in its
    window.  Take a key with a live record and any trace, of this and other
    clients and of pages outside the API, in which the requests of the key
    come no later than the end of the window.  Afterwards the record has
    the same [resetTime], and its count has grown by exactly the number of
    the key's requests that were let through; that number never takes the
    count beyond [maxRequests]. *)
Theorem X5_count_is_admissions cfg k (evs : list Event) :
  ∀ c R (store : Store),
  store !! k = Some {| count := c; resetTime := R |} →
  Forall (λ e, is_limited k e = true → ev_now e <= R) evs →
  (serve cfg evs store).2 !! k
  = Some {| count := c + admitted_for k evs (serve cfg evs store).1;
            resetTime := R |}
  ∧ 0 <= admitted_for k evs (serve cfg evs store).1
  ∧ (c <= maxRequests cfg →
     c + admitted_for k evs (serve cfg evs store).1 <= maxRequests cfg).
Proof.
  induction evs as [|e evs IH]; intros c R store Hk Hall.
  { simpl. rewrite Z.add_0_r. split; [done|]. split; [done|lia]. }
  apply Forall_cons in Hall as [Hnow Hall].
  rewrite serve_cons. simpl fst. simpl snd. simpl admitted_for.
  destruct (is_limited k e) eqn:Hlim.
  - pose proof (proj1 (is_limited_request k e) Hlim) as Hreq.
    specialize (Hnow eq_refl).
    destruct (Z.le_gt_cases (maxRequests cfg) c) as [Hfull|Hroom].
    + rewrite (middleware_exhausted cfg k _ _ _ _ store Hreq Hk) by done.
      simpl fst. simpl snd.
      destruct (IH c R store Hk Hall) as (Hrec & Hpos & Hmax).
      rewrite Hrec. simpl. split; [done|]. split; [lia|]. intros. lia.
    + rewrite (middleware_counted cfg k _ _ _ _ store Hreq Hk) by done.
      simpl fst. simpl snd. simpl count. simpl resetTime.
      destruct (IH (c + 1) R (<[k := {| count := c + 1; resetTime := R |}]> store))
        as (Hrec & Hpos & Hmax); [apply lookup_insert_eq | done |].
      rewrite Hrec. simpl. split; [do 2 f_equal; lia|]. split; [lia|].
      intros. lia.
  - pose proof (middleware_untouched cfg k e store Hlim) as Hsame.
    rewrite Hk in Hsame.
    destruct (IH c R _ Hsame Hall) as (Hrec & Hpos & Hmax).
    rewrite Hrec. simpl. done.
Qed.

(** Two clients and a page: of the 150 requests of the first client after
    the one that opened its window, 99 get through. *)
Lemma X5_count_is_admissions_witness :
  (serve RATE_LIMIT
     (at_time (api_request "2.2.2.2") 3 :: at_time (mkRequest None None "/") 4
        :: replicate 150 (at_time (api_request "1.2.3.4") 500))
     {[ "rate_limit:1.2.3.4" := {| count := 1; resetTime := 60000 |} ]}).2
    !! "rate_limit:1.2.3.4"
  = Some {| count := 100; resetTime := 60000 |}.
Proof.
  destruct (X5_count_is_admissions RATE_LIMIT "rate_limit:1.2.3.4"
              (at_time (api_request "2.2.2.2") 3 :: at_time (mkRequest None None "/") 4
                 :: replicate 150 (at_time (api_request "1.2.3.4") 500))
              1 60000
              {[ "rate_limit:1.2.3.4" := {| count := 1; resetTime := 60000 |} ]})
    as (Hrec & _).
  - reflexivity.
  - apply Forall_cons_2; [intros H; vm_compute in H; discriminate H|].
    apply Forall_cons_2; [intros H; vm_compute in H; discriminate H|].
    apply Forall_replicate. intros _. simpl. lia.
  - rewrite Hrec. vm_compute. reflexivity.
Defined.

Lemma Math_ceil_div_ge a b : 0 < b → a <= b * Js.Math_ceil_div a b.
Proof.
  intros Hb. unfold Js.Math_ceil_div.
  pose proof (Z.mul_div_le (- a) b Hb). lia.
Qed.

Lemma ends_by_mono cfg t t' (store : Store) :
  t <= t' → ends_by cfg t store → ends_by cfg t' store.
Proof.
  intros Ht Hends k r Hk. specialize (Hends k r Hk). simpl in *. lia.
Qed.

Lemma middleware_ends_by cfg request now now' (store : Store) :
  now <= now' → ends_by cfg now store →
  ends_by cfg now' (middleware cfg request now now' store).2.
Proof.
  intros Hclock Hends. rewrite middleware_store.
  destruct (Js.startsWith _ _); [|by apply ends_by_mono with now].
  destruct (isRateLimited_cases cfg now (getRateLimitKey request) store)
    as [[_ ->] | [(r & _ & _ & ->) | [(r & _ & _ & _ & ->) | (r & Hk & _ & _ & ->)]]];
    simpl; try (apply map_Forall_insert_2; [simpl|]);
    try (by apply ends_by_mono with now); try lia.
  specialize (Hends _ r Hk). simpl in Hends. lia.
Qed.

(** Under a clock that does not run backwards, no record met along a trace
    ends its window later than [windowMs] after the current reading. *)
Lemma serve_ends_by cfg (evs : list Event) : ∀ t (store : Store) i e,
  clock_ordered t evs → ends_by cfg t store → evs !! i = Some e →
  ev_now e <= ev_now' e
  ∧ ends_by cfg (ev_now e) (serve cfg (take i evs) store).2.
Proof.
  induction evs as [|e0 evs IH]; intros t store i e Hclock Hends Hi;
    [by rewrite lookup_nil in Hi|].
  destruct Hclock as (Ht & Hnow & Hclock).
  destruct i as [|j]; simpl in Hi.
  - injection Hi as <-. split; [done|]. by apply ends_by_mono with t.
  - simpl take. rewrite serve_cons. simpl.
    apply (IH (ev_now' e0)); [done| |done].
    apply middleware_ends_by; [done|]. by apply ends_by_mono with t.
Qed.

(** X6.  A rejected client is never told to come back too early.  In a run
    whose clock does not go backwards, started from a store that fits the
    clock (the empty store does), every 429 response was decided against a
    live record of the key, and the reset time it reports, the clock
    reading plus [windowMs], is not earlier than that record's
    [resetTime]; the [Retry-After] seconds likewise cover the time that is
    left of the window. *)
Theorem X6_rejection_reports_late cfg t0 (evs : list Event) (store : Store) :
  clock_ordered t0 evs → ends_by cfg t0 store →
  ∀ i e resp, evs !! i = Some e →
    (serve cfg evs store).1 !! i = Some resp → status resp = 429 →
    ∃ record,
      (serve cfg (take i evs) store).2 !! event_key e = Some record
      ∧ live (ev_now e) record
      ∧ resp = tooManyRequests cfg (ev_now' e)
      ∧ resetTime record <= ev_now' e + windowMs cfg
      ∧ resetTime record - ev_now e
        <= 1000 * Js.Math_ceil_div (windowMs cfg) 1000.
Proof.
  intros Hclock Hends i e resp Hi Hresp Hstatus.
  rewrite (serve_lookup cfg evs store i e Hi) in Hresp. injection Hresp as <-.
  destruct (serve_ends_by cfg evs t0 store i e Hclock Hends Hi) as [Hnow Hbefore].
  set (before := (serve cfg (take i evs) store).2) in *.
  destruct (middleware_shape cfg (ev_request e) (ev_now e) (ev_now' e) before)
    as [[Hapi Hshape] | [(Hapi & Hlim & Hshape) | (Hapi & _ & record & _ & Hshape)]];
    rewrite Hshape in Hstatus.
  - unfold secured in Hstatus. rewrite Hapi in Hstatus. discriminate.
  - destruct (isRateLimited_cases cfg (ev_now e) (getRateLimitKey (ev_request e)) before)
      as [[_ Hrun] | [(r & _ & _ & Hrun) | [(r & Hk & Hlive & _ & _)
                                           | (r & _ & _ & _ & Hrun)]]];
      try (rewrite Hrun in Hlim; discriminate).
    exists r. pose proof (Hbefore _ r Hk) as Hr. simpl in Hr.
    pose proof (Math_ceil_div_ge (windowMs cfg) 1000 ltac:(lia)).
    unfold event_key. repeat split; try done; lia.
  - discriminate.
Qed.

(** The 101st request of a burst, at 500 ms: the window ends at 60000, the
    response says 60500. *)
Lemma X6_rejection_reports_late_witness :
  ∃ record,
    (serve RATE_LIMIT (take 100 (burst "1.2.3.4" 100)) ∅).2 !! "rate_limit:1.2.3.4"
    = Some record
    ∧ resetTime record <= 500 + windowMs RATE_LIMIT.
Proof.
  destruct (X6_rejection_reports_late RATE_LIMIT 0 (burst "1.2.3.4" 100) ∅)
    with (i := 100%nat) (e := at_time (api_request "1.2.3.4") 500)
         (resp := tooManyRequests RATE_LIMIT 500)
    as (record & Hrec & _ & _ & Hlate & _).
  - vm_compute. repeat split; discriminate.
  - apply map_Forall_empty.
  - reflexivity.
  - vm_compute. reflexivity.
  - reflexivity.
  - exists record. split; [exact Hrec | exact Hlate].
Defined.

Lemma serve_exhausted cfg k r (evs : list Event) (store : Store) :
  store !! k = Some r → maxRequests cfg <= count r →
  Forall (λ e, limited_request k (ev_request e) ∧ live (ev_now e) r) evs →
  serve cfg evs store = (map (λ e, tooManyRequests cfg (ev_now' e)) evs, store).
Proof.
  intros Hk Hfull. induction evs as [|e evs IH]; intros Hall; [done|].
  apply Forall_cons in Hall as [[Hreq Hlive] Hall].
  rewrite serve_cons, (middleware_exhausted cfg k _ _ _ r) by done.
  simpl. by rewrite IH.
Qed.

(** X7.  A limit below one still lets one request through per window.  With
    [maxRequests <= 1] (0 and negative numbers included) the request that
    opens a window is admitted all the same, reporting a remaining quota of
    [maxRequests - 1], and every other request of the window is rejected:
    the limit is only looked at for a key that already has a live record. *)
Theorem X7_limit_below_one cfg k (store : Store) e0 rest :
  maxRequests cfg <= 1 →
  match store !! k with Some r => resetTime r < ev_now e0 | None => True end →
  limited_request k (ev_request e0) →
  Forall (λ e, limited_request k (ev_request e)
               ∧ ev_now e <= ev_now e0 + windowMs cfg) rest →
  serve cfg (e0 :: rest) store
  = (withRateLimitHeaders cfg (fresh_record cfg (ev_now e0))
       :: map (λ e, tooManyRequests cfg (ev_now' e)) rest,
     <[k := fresh_record cfg (ev_now e0)]> store)
  ∧ status (withRateLimitHeaders cfg (fresh_record cfg (ev_now e0))) = 200
  ∧ reported_remaining (withRateLimitHeaders cfg (fresh_record cfg (ev_now e0)))
    = Some (Js.Number_toString (maxRequests cfg - 1)).
Proof.
  intros HM Hfresh Hreq Hall. split; [|done].
  rewrite serve_cons, (middleware_fresh cfg k) by done. simpl.
  rewrite (serve_exhausted cfg k (fresh_record cfg (ev_now e0)));
    first [done | apply lookup_insert_eq | simpl; lia].
Qed.

(** With a limit of 0 the first request of a burst passes, reporting -1. *)
Lemma X7_limit_below_one_witness :
  (serve (mkConfig 60000 0) (burst "1.2.3.4" 2) ∅).1
  = [ withRateLimitHeaders (mkConfig 60000 0) (fresh_record (mkConfig 60000 0) 0);
      tooManyRequests (mkConfig 60000 0) 500;
      tooManyRequests (mkConfig 60000 0) 500 ]
  ∧ reported_remaining
      (withRateLimitHeaders (mkConfig 60000 0) (fresh_record (mkConfig 60000 0) 0))
    = Some "-1".
Proof.
  destruct (X7_limit_below_one (mkConfig 60000 0) "rate_limit:1.2.3.4" ∅
              (at_time (api_request "1.2.3.4") 0)
              (replicate 2 (at_time (api_request "1.2.3.4") 500)))
    as (Hrun & _ & Hremaining).
  - simpl. lia.
  - exact I.
  - split; reflexivity.
  - apply Forall_replicate. split; [split; reflexivity | simpl; lia].
  - split; [exact (f_equal fst Hrun) | exact Hremaining].
Defined.

(** ** Further properties of key derivation *)

Lemma first_entry_no_comma s : has_comma (first_entry s) = false.
Proof.
  induction s as [|c s IH]; simpl; [done|].
  destruct (Ascii.eqb c ",") eqn:Hc; simpl; [done|]. by rewrite Hc.
Qed.

Lemma first_entry_split s :
  ∃ rest, s = first_entry s +:+ rest
          ∧ (rest = EmptyString ∨ ∃ more, rest = "," +:+ more).
Proof.
  induction s as [|c s (rest & Hs & Hrest)]; simpl.
  { exists EmptyString. split; [done|by left]. }
  destruct (Ascii.eqb_spec c ",") as [->|Hc].
  - exists (String "," s). split; [done|]. right. by exists s.
  - exists rest. split; [|done].
    change (String c s = String c (first_entry s +:+ rest)). by f_equal.
Qed.

(** X8.  Which requests share a bucket.  Two requests whose
    forwarded-address headers are not empty get the same key exactly when
    the texts before the first comma of their headers are the same: the
    rest of the header, the connection address and the path play no part,
    and nothing is trimmed or normalised. *)
Theorem X8_same_bucket request1 request2 f1 f2 :
  x_forwarded_for request1 = Some f1 → f1 ≠ EmptyString →
  x_forwarded_for request2 = Some f2 → f2 ≠ EmptyString →
  getRateLimitKey request1 = getRateLimitKey request2
  ↔ first_entry f1 = first_entry f2.
Proof.
  intros Hf1 Hne1 Hf2 Hne2.
  rewrite (getRateLimitKey_forwarded request1 f1), (getRateLimitKey_forwarded request2 f2)
    by done.
  split; [|by intros ->].
  simpl. intros Heq. by simplify_eq.
Qed.

(** Same first entry, different tails and connection addresses: one
    bucket.  A leading blank: another bucket. *)
Lemma X8_same_bucket_witness :
  getRateLimitKey (mkRequest (Some "1.2.3.4, 5.6.7.8") (Some "9.9.9.9") "/api/a")
  = getRateLimitKey (mkRequest (Some "1.2.3.4,10.0.0.1") None "/api/b")
  ∧ getRateLimitKey (mkRequest (Some " 1.2.3.4") None "/api/a")
    ≠ getRateLimitKey (mkRequest (Some "1.2.3.4") None "/api/a").
Proof.
  split.
  - refine (proj2 (X8_same_bucket
              (mkRequest (Some "1.2.3.4, 5.6.7.8") (Some "9.9.9.9") "/api/a")
              (mkRequest (Some "1.2.3.4,10.0.0.1") None "/api/b")
              "1.2.3.4, 5.6.7.8" "1.2.3.4,10.0.0.1" _ _ _ _) _);
      (reflexivity || discriminate).
  - intros Heq.
    refine (_ (proj1 (X8_same_bucket
              (mkRequest (Some " 1.2.3.4") None "/api/a")
              (mkRequest (Some "1.2.3.4") None "/api/a")
              " 1.2.3.4" "1.2.3.4" _ _ _ _) Heq));
      (reflexivity || discriminate).
Defined.

(** X9.  What the key is made of when the header is used.  For a header
    that is not empty the key is the prefix followed by an address with no
    comma in it, and the header is that address followed by nothing or by a
    comma and more text; so the address is the longest comma-free start of
    the header, taken as it stands.  A header that starts with a comma
    gives the bare prefix as key. *)
Theorem X9_key_address request f :
  x_forwarded_for request = Some f → f ≠ EmptyString →
  (∃ address rest,
     getRateLimitKey request = "rate_limit:" +:+ address
     ∧ f = address +:+ rest
     ∧ has_comma address = false
     ∧ (rest = EmptyString ∨ ∃ more, rest = "," +:+ more))
  ∧ (∀ more, f = "," +:+ more → getRateLimitKey request = "rate_limit:").
Proof.
  intros Hf Hne. rewrite (getRateLimitKey_forwarded request f) by done. split.
  - destruct (first_entry_split f) as (rest & Hsplit & Hrest).
    exists (first_entry f), rest. split; [done|]. split; [done|].
    split; [apply first_entry_no_comma | done].
  - by intros more ->.
Qed.

Lemma X9_key_address_witness :
  getRateLimitKey (mkRequest (Some ",1.2.3.4") (Some "9.9.9.9") "/api/a")
  = "rate_limit:".
Proof.
  refine (proj2 (X9_key_address
            (mkRequest (Some ",1.2.3.4") (Some "9.9.9.9") "/api/a") ",1.2.3.4" _ _)
            "1.2.3.4" _);
    (reflexivity || discriminate).
Defined.

(** ** Traffic around the end of a window *)

(** While there is room in a live window, every request of the key is
    admitted and counted. *)
Lemma serve_room cfg k R (evs : list Event) : ∀ c (store : Store),
  store !! k = Some {| count := c; resetTime := R |} →
  Forall (λ e, limited_request k (ev_request e) ∧ ev_now e <= R) evs →
  c + Z.of_nat (length evs) <= maxRequests cfg →
  Forall (λ r, status r = 200) (serve cfg evs store).1
  ∧ length (serve cfg evs store).1 = length evs
  ∧ (serve cfg evs store).2 !! k
    = Some {| count := c + Z.of_nat (length evs); resetTime := R |}.
Proof.
  induction evs as [|e evs IH]; intros c store Hk Hall Hroom.
  { simpl. rewrite Z.add_0_r. done. }
  apply Forall_cons in Hall as [[Hreq Hnow] Hall].
  rewrite serve_cons.
  rewrite (middleware_counted cfg k _ _ _ _ store Hreq Hk)
    by (unfold live; simpl in *; lia).
  simpl fst. simpl snd. simpl count. simpl resetTime.
  destruct (IH (c + 1) (<[k := {| count := c + 1; resetTime := R |}]> store))
    as (Hstatus & Hlen & Hrec); [apply lookup_insert_eq | done | simpl in *; lia |].
  split; [by apply Forall_cons|]. split; [simpl; by rewrite Hlen|].
  rewrite Hrec. do 2 f_equal. simpl length. lia.
Qed.

(** X10.  The limit is per window, not per stretch of time.  A client that
    opens a window at time 0, sends [maxRequests - 1] requests at the very
    end of it (at [windowMs], where the record is still live) and
    [maxRequests] requests one millisecond later has all of its
    [2 * maxRequests] requests admitted: [2 * maxRequests - 1] of them
    within two consecutive milliseconds. *)
Theorem X10_boundary_burst cfg forwarded :
  1 <= maxRequests cfg → 0 <= windowMs cfg →
  Forall (λ r, status r = 200) (serve cfg (boundary_burst cfg forwarded) ∅).1
  ∧ Z.of_nat (length (serve cfg (boundary_burst cfg forwarded) ∅).1)
    = 2 * maxRequests cfg
  ∧ Forall (λ e, windowMs cfg <= ev_now e <= windowMs cfg + 1)
      (tail (boundary_burst cfg forwarded)).
Proof.
  intros HM HW. unfold boundary_burst.
  set (request := api_request forwarded).
  set (k := getRateLimitKey request).
  assert (Hreq : limited_request k request) by (split; reflexivity).
  replace (Z.to_nat (maxRequests cfg)) with (S (Z.to_nat (maxRequests cfg - 1))) by lia.
  set (n := Z.to_nat (maxRequests cfg - 1)).
  rewrite serve_cons.
  rewrite (middleware_fresh cfg k request 0 0 ∅ Hreq) by (by rewrite lookup_empty).
  cbn [fst snd]. rewrite serve_app.
  set (store1 := <[k := fresh_record cfg 0]> (∅ : Store)).
  destruct (serve_room cfg k (0 + windowMs cfg) (replicate n (at_time request (windowMs cfg)))
              1 store1) as (Hstatus1 & Hlen1 & Hrec1).
  { apply lookup_insert_eq. }
  { apply Forall_replicate. split; [done | simpl; lia]. }
  { rewrite length_replicate. lia. }
  set (store2 := (serve cfg (replicate n (at_time request (windowMs cfg))) store1).2) in *.
  cbn [fst snd].
  change (replicate (S n) (at_time request (windowMs cfg + 1)))
    with (at_time request (windowMs cfg + 1)
            :: replicate n (at_time request (windowMs cfg + 1))).
  rewrite (serve_cons cfg _ _ store2). cbn [ev_request ev_now ev_now' at_time].
  rewrite (middleware_fresh cfg k request (windowMs cfg + 1) (windowMs cfg + 1) store2 Hreq)
    by (rewrite Hrec1; simpl; lia).
  cbn [fst snd].
  destruct (serve_room cfg k (windowMs cfg + 1 + windowMs cfg)
              (replicate n (at_time request (windowMs cfg + 1)))
              1 (<[k := fresh_record cfg (windowMs cfg + 1)]> store2))
    as (Hstatus2 & Hlen2 & _).
  { apply lookup_insert_eq. }
  { apply Forall_replicate. split; [done | simpl; lia]. }
  { rewrite length_replicate. lia. }
  split; [|split].
  - apply Forall_cons. split; [done|]. apply Forall_app. split; [done|].
    apply Forall_cons. by split.
  - simpl length. rewrite length_app. simpl length.
    rewrite Hlen1, Hlen2, !length_replicate. lia.
  - simpl tail. apply Forall_app. split.
    + apply Forall_replicate. simpl. lia.
    + apply Forall_cons. split; [simpl; lia|].
      apply Forall_replicate. simpl. lia.
Qed.

(** The source's configuration: 200 requests admitted, 199 of them at
    60000 and 60001 ms. *)
Lemma X10_boundary_burst_witness :
  Z.of_nat (length (serve RATE_LIMIT (boundary_burst RATE_LIMIT "1.2.3.4") ∅).1)
  = 200
  ∧ Forall (λ r, status r = 200)
      (serve RATE_LIMIT (boundary_burst RATE_LIMIT "1.2.3.4") ∅).1.
Proof.
  destruct (X10_boundary_burst RATE_LIMIT "1.2.3.4") as (Hall & Hlen & _).
  - simpl. lia.
  - simpl. lia.
  - split; [exact Hlen | exact Hall].
Defined.

(** ** When a request is turned away *)

Lemma secured_status request : status (secured request) = 200.
Proof. unfold secured. by destruct (Js.startsWith _ _). Qed.

(** X11.  What triggers a 429.  A request is answered with status 429
    exactly when its path starts with ["/api/"] and the store holds, under
    its key, a record that is live at the clock reading and whose count has
    reached [maxRequests].  So a page outside the API, the first request of
    a key and the first request after the end of a window are never turned
    away, and every response has status 200 or 429. *)
Theorem X11_rejected_exactly_when cfg request now now' (store : Store) :
  (status (middleware cfg request now now' store).1 = 429
   ↔ Js.startsWith (pathname request) "/api/" = true
     ∧ ∃ r, store !! getRateLimitKey request = Some r
            ∧ now <= resetTime r ∧ maxRequests cfg <= count r)
  ∧ (status (middleware cfg request now now' store).1 = 200
     ∨ status (middleware cfg request now now' store).1 = 429).
Proof.
  destruct (middleware_shape cfg request now now' store)
    as [[Hapi ->] | [(Hapi & Hlim & ->) | (Hapi & Hlim & record & _ & ->)]].
  - rewrite secured_status. split; [|by left].
    split; [discriminate | intros [? _]; congruence].
  - split; [|by right]. split; [|done]. intros _. split; [done|].
    destruct (isRateLimited_cases cfg now (getRateLimitKey request) store)
      as [[_ Hrun] | [(r & _ & _ & Hrun) | [(r & Hk & Hlive & Hfull & _)
                                           | (r & _ & _ & _ & Hrun)]]];
      try (rewrite Hrun in Hlim; discriminate).
    by exists r.
  - split; [|by left]. split; [discriminate|].
    intros (_ & r & Hk & Hlive & Hfull).
    rewrite (isRateLimited_exhausted cfg now _ r) in Hlim by done. discriminate.
Qed.

Lemma X11_rejected_exactly_when_witness :
  status (middleware RATE_LIMIT (api_request "1.2.3.4") 60000 60000
            {[ "rate_limit:1.2.3.4" := {| count := 100; resetTime := 60000 |} ]}).1
  = 429.
Proof.
  refine (proj2 (proj1 (X11_rejected_exactly_when RATE_LIMIT (api_request "1.2.3.4")
            60000 60000
            {[ "rate_limit:1.2.3.4" := {| count := 100; resetTime := 60000 |} ]})) _).
  split; [reflexivity|].
  exists {| count := 100; resetTime := 60000 |}.
  split; [reflexivity|]. simpl. lia.
Defined.
